(** * Rock-paper-scissors match server: the server actions of
      [src/actions/game.ts] over a model of the [games] table.

    The server actions talk to one table through the Supabase client.  Every
    awaited client request is one step against the table; an action is a
    fetch request followed (on some paths) by one update request.  The table
    is a finite map from the [id] column to the row.  Requests fail only for
    the reasons the table itself gives (no row for [.single()], an [id]
    already taken on insert); the transport is taken to be reliable and
    [console.log] output is left out. *)

From stdpp Require Import gmap strings sorting.
From Stdlib Require Import ZArith.

Local Open Scope Z_scope.
Local Open Scope string_scope.

(** ** Data model (lines 18-29) *)

(** ["rock" | "paper" | "scissors"] *)
Inductive Choice : Type := rock | paper | scissors.

(** ["waiting" | "playing" | "finished"] *)
Inductive Status : Type := waiting | playing | finished.

(** The non-null results of [determineWinner]. *)
Inductive Winner : Type := player1 | player2 | draw.

#[global] Instance Choice_eq_dec : EqDecision Choice.
Proof. solve_decision. Defined.
#[global] Instance Status_eq_dec : EqDecision Status.
Proof. solve_decision. Defined.
#[global] Instance Winner_eq_dec : EqDecision Winner.
Proof. solve_decision. Defined.

(** [interface Game]; [null] is [None].  The scores are [number]s, that is
    binary64 values.  The program only ever writes [0] and a score plus one,
    so a score is held here by its integer value, and the one arithmetic
    operation on it, [number_add] below, rounds as binary64 does. *)
Record Game : Type := mkGame {
  id : string;
  player1_id : option string;
  player2_id : option string;
  player1_choice : option Choice;
  player2_choice : option Choice;
  player1_score : Z;
  player2_score : Z;
  last_result : option string;
  status : Status
}.

#[global] Instance Game_eq_dec : EqDecision Game.
Proof. solve_decision. Defined.

(** [Partial<Game>] as passed to [.update(...)] and [.insert(...)]: a column
    that is absent from the object is [None]; a column set to [null] is
    [Some None].  No request of the program writes the [id] column. *)
Record Patch : Type := mkPatch {
  set_player1_id : option (option string);
  set_player2_id : option (option string);
  set_player1_choice : option (option Choice);
  set_player2_choice : option (option Choice);
  set_player1_score : option Z;
  set_player2_score : option Z;
  set_last_result : option (option string);
  set_status : option Status
}.

(** [{}] *)
Definition empty_patch : Patch :=
  mkPatch None None None None None None None None.

(** Assignments [updateData.<column> = v]. *)
Definition assign_player1_choice (v : option Choice) (p : Patch) : Patch :=
  mkPatch (set_player1_id p) (set_player2_id p) (Some v) (set_player2_choice p)
          (set_player1_score p) (set_player2_score p) (set_last_result p)
          (set_status p).

Definition assign_player2_choice (v : option Choice) (p : Patch) : Patch :=
  mkPatch (set_player1_id p) (set_player2_id p) (set_player1_choice p) (Some v)
          (set_player1_score p) (set_player2_score p) (set_last_result p)
          (set_status p).

Definition assign_player1_score (v : Z) (p : Patch) : Patch :=
  mkPatch (set_player1_id p) (set_player2_id p) (set_player1_choice p)
          (set_player2_choice p) (Some v) (set_player2_score p)
          (set_last_result p) (set_status p).

Definition assign_player2_score (v : Z) (p : Patch) : Patch :=
  mkPatch (set_player1_id p) (set_player2_id p) (set_player1_choice p)
          (set_player2_choice p) (set_player1_score p) (Some v)
          (set_last_result p) (set_status p).

Definition assign_last_result (v : option string) (p : Patch) : Patch :=
  mkPatch (set_player1_id p) (set_player2_id p) (set_player1_choice p)
          (set_player2_choice p) (set_player1_score p) (set_player2_score p)
          (Some v) (set_status p).

(** The row after an update with object [p]: listed columns are overwritten,
    the others keep their value. *)
Definition apply_patch (p : Patch) (g : Game) : Game :=
  {| id := id g;
     player1_id := default (player1_id g) (set_player1_id p);
     player2_id := default (player2_id g) (set_player2_id p);
     player1_choice := default (player1_choice g) (set_player1_choice p);
     player2_choice := default (player2_choice g) (set_player2_choice p);
     player1_score := default (player1_score g) (set_player1_score p);
     player2_score := default (player2_score g) (set_player2_score p);
     last_result := default (last_result g) (set_last_result p);
     status := default (status g) (set_status p) |}.

(** ** JavaScript numbers with integer values *)

(** The binary64 value nearest to the integer [x], ties to the even
    significand.  Below [2^53] in magnitude every integer is a binary64
    value; from there on the values are [2^(e-52)] apart, where
    [2^e <= |x| < 2^(e+1)]. *)
Definition number_round (x : Z) : Z :=
  let a := Z.abs x in
  if (a <? 2 ^ 53)%Z then x
  else
    let ulp := (2 ^ (Z.log2 a - 52))%Z in
    let q := (a / ulp)%Z in
    let r := (a mod ulp)%Z in
    let q' :=
      if (2 * r <? ulp)%Z then q
      else if (ulp <? 2 * r)%Z then (q + 1)%Z
      else if Z.even q then q else (q + 1)%Z in
    (Z.sgn x * (q' * ulp))%Z.

(** [a + b] on numbers with integer values: the exact sum, rounded.  A
    stored score is finite, and a finite value plus one is finite. *)
Definition number_add (a b : Z) : Z := number_round (a + b).

(** ** JavaScript truthiness of the tested values *)

(** A [string | null] in a condition: [null] and the empty string are
    falsy.  This is how the program asks whether an identifier is there
    ([if (game.player2_id)], and [if (!userId)] in the page that calls the
    actions). *)
Definition truthy_string (v : option string) : bool :=
  match v with
  | Some s => negb (String.eqb s EmptyString)
  | None => false
  end.

(** A choice in a condition: the three choices are non-empty strings, so only
    [null] is falsy. *)
Definition truthy_choice (v : option Choice) : bool :=
  match v with
  | Some _ => true
  | None => false
  end.

(** ** The table and the client requests *)

(** [{ data, error }] of a client request. *)
Inductive DbResult (A : Type) : Type :=
| DbOk (data : A)
| DbError (message : string).
Arguments DbOk {A} data.
Arguments DbError {A} message.

(** Messages of the two table-level failures; their text is the service's,
    and the program only forwards it. *)
Definition no_single_row : string :=
  "JSON object requested, multiple (or no) rows returned".
Definition duplicate_key : string :=
  "duplicate key value violates unique constraint".

(** [.from("games").select("*").eq("id", gameId).single()] *)
Definition select_single (gameId : string) (db : gmap string Game)
  : DbResult Game :=
  match db !! gameId with
  | Some game => DbOk game
  | None => DbError no_single_row
  end.

(** [.from("games").update(p).eq("id", gameId)]: every row whose id is
    [gameId] is patched; matching no row is not an error. *)
Definition update_eq (gameId : string) (p : Patch) (db : gmap string Game)
  : DbResult unit * gmap string Game :=
  (DbOk tt, alter (apply_patch p) gameId db).

(** [.from("games").update(p).eq("id", gameId).select().single()]: the
    patched row is returned; without a row the request fails and nothing is
    written. *)
Definition update_select_single (gameId : string) (p : Patch)
    (db : gmap string Game) : DbResult Game * gmap string Game :=
  match db !! gameId with
  | Some game =>
      let game' := apply_patch p game in
      (DbOk game', <[gameId := game']> db)
  | None => (DbError no_single_row, db)
  end.

(** Modelled from the spec: the column defaults of the [games] table, whose
    schema is not part of the sources.  A new match has zeroed scores, no
    choices, no second participant and no last result ("allocates a new
    Match with participantA = requesterId, status = WAITING, zeroed scores,
    no choices").  The [id] is assigned by the table. *)
Definition column_defaults (newId : string) : Game :=
  {| id := newId;
     player1_id := None;
     player2_id := None;
     player1_choice := None;
     player2_choice := None;
     player1_score := 0;
     player2_score := 0;
     last_result := None;
     status := waiting |}.

(** [.from("games").insert(p).select().single()], where [newId] is the id
    the table assigns to the new row.  An id that is already taken is a
    storage failure and nothing is written. *)
Definition insert_select_single (newId : string) (p : Patch)
    (db : gmap string Game) : DbResult Game * gmap string Game :=
  match db !! newId with
  | None =>
      let game := apply_patch p (column_defaults newId) in
      (DbOk game, <[newId := game]> db)
  | Some _ => (DbError duplicate_key, db)
  end.

(** ** Results of the server actions *)

Inductive Reply : Type :=
| ReplyError (error : string)                              (* { error } *)
| ReplyPlayer (gameId playerId : string) (playerNumber : Z)
                                    (* { gameId, playerId, playerNumber } *)
| ReplySuccess                                             (* { success: true } *)
| ReplyGame (game : Game).                                 (* { game } *)

#[global] Instance Reply_eq_dec : EqDecision Reply.
Proof. solve_decision. Defined.

(** ** Helper to determine the winner (lines 32-49) *)

Definition determineWinner (player1Choice player2Choice : option Choice)
  : option Winner :=
  match player1Choice, player2Choice with
  | Some c1, Some c2 =>
      if bool_decide (c1 = c2) then Some draw
      else if bool_decide (c1 = rock ∧ c2 = scissors)
              || bool_decide (c1 = paper ∧ c2 = rock)
              || bool_decide (c1 = scissors ∧ c2 = paper)
      then Some player1
      else Some player2
  | _, _ => None
  end.

(** ** The server actions

    An action that reads and then writes is given in its two requests: the
    fetch, which either returns to the caller or prepares the update object,
    and the update.  The action is the fetch followed by the update. *)

Inductive Fetched : Type :=
| Returns (reply : Reply)        (* the action returns without writing *)
| Updates (updateData : Patch).  (* the action goes on to the update request *)

Definition run_action
    (fetch : gmap string Game → Fetched)
    (update : Patch → gmap string Game → Reply * gmap string Game)
    (db : gmap string Game) : Reply * gmap string Game :=
  match fetch db with
  | Returns reply => (reply, db)
  | Updates updateData => update updateData db
  end.

(** *** createGame (lines 51-64); [newId] is the id the table assigns. *)
Definition createGame (newId userId : string) (db : gmap string Game)
  : Reply * gmap string Game :=
  let payload :=
    mkPatch (Some (Some userId)) None None None None None None (Some waiting) in
  match insert_select_single newId payload db with
  | (DbError message, db') => (ReplyError message, db')
  | (DbOk data, db') => (ReplyPlayer (id data) userId 1, db')
  end.

(** *** joinGame (lines 66-95) *)

(** Lines 67-80. *)
Definition joinGame_fetch (gameId userId : string) (db : gmap string Game)
  : Fetched :=
  match select_single gameId db with
  | DbError _ => Returns (ReplyError "Game not found")
  | DbOk game =>
      if bool_decide (player1_id game = Some userId)
         || bool_decide (player2_id game = Some userId)
      then
        (* User is already part of this game, just return current state *)
        let playerNumber :=
          if bool_decide (player1_id game = Some userId) then 1 else 2 in
        Returns (ReplyPlayer (id game) userId playerNumber)
      else if truthy_string (player2_id game)
      then Returns (ReplyError "Game is already full")
      else
        Updates (mkPatch None (Some (Some userId)) None None None None None
                         (Some playing))
  end.

(** Lines 82-94. *)
Definition joinGame_update (gameId userId : string) (updateData : Patch)
    (db : gmap string Game) : Reply * gmap string Game :=
  match update_select_single gameId updateData db with
  | (DbError message, db') => (ReplyError message, db')
  | (DbOk data, db') => (ReplyPlayer (id data) userId 2, db')
  end.

Definition joinGame (gameId userId : string) (db : gmap string Game)
  : Reply * gmap string Game :=
  run_action (joinGame_fetch gameId userId) (joinGame_update gameId userId) db.

(** *** makeMove (lines 97-146) *)

(** Lines 117-118: the pair of choices once the move is taken into
    account. *)
Definition player1CurrentChoice (game : Game) (isPlayer1 : bool)
    (choice : Choice) : option Choice :=
  if isPlayer1 then Some choice else player1_choice game.

Definition player2CurrentChoice (game : Game) (isPlayer1 : bool)
    (choice : Choice) : option Choice :=
  if negb isPlayer1 then Some choice else player2_choice game.

(** Lines 116-136: the rest of the update object, from the fetched row, the
    side of the mover and the object holding the mover's choice. *)
Definition makeMove_resolve (game : Game) (isPlayer1 : bool) (choice : Choice)
    (updateData : Patch) : Patch :=
  let p1 := player1CurrentChoice game isPlayer1 choice in
  let p2 := player2CurrentChoice game isPlayer1 choice in
  if truthy_choice p1 && truthy_choice p2
  then
    let winner := determineWinner p1 p2 in
    let updateData :=
      if bool_decide (winner = Some player1) then
        assign_last_result (Some "Player 1 wins this round!")
          (assign_player1_score (number_add (player1_score game) 1)
             updateData)
      else if bool_decide (winner = Some player2) then
        assign_last_result (Some "Player 2 wins this round!")
          (assign_player2_score (number_add (player2_score game) 1)
             updateData)
      else
        assign_last_result (Some "It's a draw!") updateData in
    (* Reset choices for the next round *)
    assign_player2_choice None (assign_player1_choice None updateData)
  else
    (* Clear result if only one player has moved *)
    assign_last_result None updateData.

(** Lines 98-136. *)
Definition makeMove_fetch (gameId playerId : string) (choice : Choice)
    (db : gmap string Game) : Fetched :=
  match select_single gameId db with
  | DbError _ => Returns (ReplyError "Game not found")
  | DbOk game =>
      if bool_decide (player1_id game = Some playerId) then
        Updates (makeMove_resolve game true choice
                   (assign_player1_choice (Some choice) empty_patch))
      else if bool_decide (player2_id game = Some playerId) then
        Updates (makeMove_resolve game false choice
                   (assign_player2_choice (Some choice) empty_patch))
      else Returns (ReplyError "Invalid player for this game")
  end.

(** Lines 138-145. *)
Definition makeMove_update (gameId : string) (updateData : Patch)
    (db : gmap string Game) : Reply * gmap string Game :=
  match update_eq gameId updateData db with
  | (DbError message, db') => (ReplyError message, db')
  | (DbOk _, db') => (ReplySuccess, db')
  end.

Definition makeMove (gameId playerId : string) (choice : Choice)
    (db : gmap string Game) : Reply * gmap string Game :=
  run_action (makeMove_fetch gameId playerId choice) (makeMove_update gameId) db.

(** *** getGameState (lines 148-156) *)
Definition getGameState (gameId : string) (db : gmap string Game) : Reply :=
  match select_single gameId db with
  | DbError _ => ReplyError "Game not found"
  | DbOk game => ReplyGame game
  end.

(** *** resetGame (lines 158-184) *)

(** Lines 159-175. *)
Definition resetGame_fetch (gameId : string) (db : gmap string Game)
  : Fetched :=
  match select_single gameId db with
  | DbError _ => Returns (ReplyError "Game not found")
  | DbOk game =>
      Updates (mkPatch None None (Some None) (Some None) (Some 0) (Some 0)
                 (Some None)
                 (* If player 2 exists, game is still playing *)
                 (Some (if truthy_string (player2_id game)
                        then playing else waiting)))
  end.

(** Lines 166-183. *)
Definition resetGame_update (gameId : string) (updateData : Patch)
    (db : gmap string Game) : Reply * gmap string Game :=
  match update_eq gameId updateData db with
  | (DbError message, db') => (ReplyError message, db')
  | (DbOk _, db') => (ReplySuccess, db')
  end.

Definition resetGame (gameId : string) (db : gmap string Game)
  : Reply * gmap string Game :=
  run_action (resetGame_fetch gameId) (resetGame_update gameId) db.

(** *** getAvailableGames (lines 186-199)

    The rows of the answer carry the [created_at] column, which is not a
    field of [Game]; the column is given by [created_at], from the key of a
    row to its time stamp. *)

(** [interface AvailableGame] of the page: the selected columns
    [id, player1_id, created_at]. *)
Record AvailableGame : Type := mkAvailableGame {
  available_id : string;
  available_player1_id : option string;
  available_created_at : Z
}.

#[global] Instance AvailableGame_eq_dec : EqDecision AvailableGame.
Proof. solve_decision. Defined.

(** [.order("created_at", { ascending: false })]: a row may come before
    another when it is not older. *)
Definition newest_first (a b : AvailableGame) : Prop :=
  (available_created_at b ≤ available_created_at a)%Z.

#[global] Instance newest_first_dec (a b : AvailableGame) :
  Decision (newest_first a b).
Proof. unfold newest_first. apply _. Defined.

(** [.from("games").select("id, player1_id, created_at")
     .is("player2_id", null).eq("status", "waiting")
     .order("created_at", { ascending: false })].
    The order among rows with the same time stamp is the service's; here it
    is the one the sort gives. *)
Definition select_waiting (created_at : string → Z) (db : gmap string Game)
  : DbResult (list AvailableGame) :=
  DbOk
    (merge_sort newest_first
       (omap (λ row : string * Game,
                if bool_decide (player2_id row.2 = None)
                   && bool_decide (status row.2 = waiting)
                then Some (mkAvailableGame (id row.2) (player1_id row.2)
                                           (created_at row.1))
                else None)
             (map_to_list db))).

(** [{ games }] or [{ error, games: [] }] *)
Record GamesReply : Type := mkGamesReply {
  games_error : option string;
  games : list AvailableGame
}.

Definition getAvailableGames (created_at : string → Z)
    (db : gmap string Game) : GamesReply :=
  match select_waiting created_at db with
  | DbError message => mkGamesReply (Some message) []
  | DbOk games => mkGamesReply None games
  end.

(** ** Calls in flight

    Two callers share nothing but the table, and each awaited request of a
    call is one step against it.  A call that has fetched holds the update
    object it computed from the row it saw. *)

Inductive Call : Type :=
| JoinGame (gameId userId : string)
| MakeMove (gameId playerId : string) (choice : Choice)
| ResetGame (gameId : string).

Definition call_fetch (c : Call) : gmap string Game → Fetched :=
  match c with
  | JoinGame gameId userId => joinGame_fetch gameId userId
  | MakeMove gameId playerId choice => makeMove_fetch gameId playerId choice
  | ResetGame gameId => resetGame_fetch gameId
  end.

Definition call_update (c : Call)
  : Patch → gmap string Game → Reply * gmap string Game :=
  match c with
  | JoinGame gameId userId => joinGame_update gameId userId
  | MakeMove gameId _ _ => makeMove_update gameId
  | ResetGame gameId => resetGame_update gameId
  end.

(** A call run from its first request to its return, with no other request
    in between. *)
Definition call (c : Call) (db : gmap string Game)
  : Reply * gmap string Game :=
  run_action (call_fetch c) (call_update c) db.

Inductive Task : Type :=
| Called (c : Call)                         (* no request issued yet *)
| Awaiting (c : Call) (updateData : Patch)  (* fetched, update not yet issued *)
| Returned (reply : Reply).

(** The next request of a task. *)
Definition task_step (t : Task) (db : gmap string Game)
  : Task * gmap string Game :=
  match t with
  | Called c =>
      match call_fetch c db with
      | Returns reply => (Returned reply, db)
      | Updates updateData => (Awaiting c updateData, db)
      end
  | Awaiting c updateData =>
      let (reply, db') := call_update c updateData db in (Returned reply, db')
  | Returned reply => (Returned reply, db)
  end.

(** Two tasks under a schedule: [false] lets the first task issue its next
    request, [true] the second. *)
Fixpoint interleave (schedule : list bool) (t1 t2 : Task)
    (db : gmap string Game) : Task * Task * gmap string Game :=
  match schedule with
  | [] => (t1, t2, db)
  | false :: rest =>
      let (t1', db') := task_step t1 db in interleave rest t1' t2 db'
  | true :: rest =>
      let (t2', db') := task_step t2 db in interleave rest t1 t2' db'
  end.

(** The tables a reader can see while the calls of a list run one after the
    other: the table before the first call and after every call. *)
Fixpoint tables_seen (calls : list Call) (db : gmap string Game)
  : list (gmap string Game) :=
  db :: match calls with
        | [] => []
        | c :: rest => tables_seen rest (snd (call c db))
        end.

(** ** Vocabulary of the statements *)

(** Both pending choices are present in a row. *)
Definition both_chosen (game : Game) : bool :=
  truthy_choice (player1_choice game) && truthy_choice (player2_choice game).

(** No row of the table holds both choices. *)
Definition no_pair_pending (db : gmap string Game) : Prop :=
  ∀ gameId game, db !! gameId = Some game → both_chosen game = false.

(** The relation of the three choices in the words of the specification:
    rock beats scissors, scissors beats paper, paper beats rock.  It is what
    [determineWinner] is compared with. *)
Definition beats (a b : Choice) : bool :=
  match a, b with
  | rock, scissors | scissors, paper | paper, rock => true
  | _, _ => false
  end.

(** The result tag written for a winner. *)
Definition result_tag (w : Winner) : string :=
  match w with
  | player1 => "Player 1 wins this round!"
  | player2 => "Player 2 wins this round!"
  | draw => "It's a draw!"
  end.

(** The side a caller moves for: slot 1 is tested first. *)
Definition isPlayer1 (game : Game) (playerId : string) : bool :=
  bool_decide (player1_id game = Some playerId).

(** The caller is bound to one of the two slots of the row. *)
Definition bound_to (game : Game) (playerId : string) : Prop :=
  player1_id game = Some playerId ∨ player2_id game = Some playerId.

(** The object that holds the mover's choice before the round is looked at
    (lines 105-111). *)
Definition own_choice (first : bool) (choice : Choice) : Patch :=
  if first then assign_player1_choice (Some choice) empty_patch
  else assign_player2_choice (Some choice) empty_patch.

(** ** The page: what a player is shown
    ([src/rock-paper-scissors.tsx], lines 192-227 and 353-364)

    The helpers read the component state [currentGameState] and
    [playerNumber]; here they take the two as arguments. *)

(** A [number | null] in a condition: [null] and [0] are falsy. *)
Definition truthy_number (v : option Z) : bool :=
  match v with
  | Some n => negb (n =? 0)%Z
  | None => false
  end.

(** Lines 192-195. *)
Definition getPlayerChoice (currentGameState : option Game)
    (playerNumber : option Z) : option Choice :=
  match currentGameState with
  | None => None
  | Some state =>
      if bool_decide (playerNumber = Some 1) then player1_choice state
      else player2_choice state
  end.

(** Lines 197-200. *)
Definition getOpponentChoice (currentGameState : option Game)
    (playerNumber : option Z) : option Choice :=
  match currentGameState with
  | None => None
  | Some state =>
      if bool_decide (playerNumber = Some 1) then player2_choice state
      else player1_choice state
  end.

(** Lines 202-209. *)
Definition isMyTurnToMove (currentGameState : option Game)
    (playerNumber : option Z) : bool :=
  match currentGameState with
  | None => false
  | Some state =>
      if negb (truthy_number playerNumber) then false
      else if bool_decide (playerNumber = Some 1)
      then bool_decide (player1_choice state = None)
      else bool_decide (player2_choice state = None)
  end.

(** Lines 211-227.  The value of the [&&] chain is only ever used as a
    condition; the result here is its truthiness. *)
Definition isOpponentWaiting (currentGameState : option Game)
    (playerNumber : option Z) : bool :=
  match currentGameState with
  | None => false
  | Some state =>
      if negb (truthy_number playerNumber) then false
      else if bool_decide (playerNumber = Some 1)
      then truthy_string (player2_id state)
           && bool_decide (player2_choice state = None)
           && negb (bool_decide (player1_choice state = None))
      else truthy_string (player1_id state)
           && bool_decide (player1_choice state = None)
           && negb (bool_decide (player2_choice state = None))
  end.

(** A choice as the page prints it. *)
Definition choice_text (c : Choice) : string :=
  match c with
  | rock => "rock"
  | paper => "paper"
  | scissors => "scissors"
  end.

(** Line 356: the text after "Your choice:". *)
Definition your_choice_text (currentGameState : option Game)
    (playerNumber : option Z) : string :=
  match getPlayerChoice currentGameState playerNumber with
  | Some c => choice_text c
  | None =>
      if isMyTurnToMove currentGameState playerNumber then "..."
      else "Waiting for your move"
  end.

(** Line 362: the text after "Opponent's choice:". *)
Definition opponent_choice_text (currentGameState : option Game)
    (playerNumber : option Z) : string :=
  match getOpponentChoice currentGameState playerNumber with
  | Some c => choice_text c
  | None =>
      if isOpponentWaiting currentGameState playerNumber then "..."
      else "Waiting for opponent"
  end.

(** ** Vocabulary of the further statements *)

(** The match a call is about. *)
Definition call_game (c : Call) : string :=
  match c with
  | JoinGame gameId _ => gameId
  | MakeMove gameId _ _ => gameId
  | ResetGame gameId => gameId
  end.

(** Every row is stored under its own [id]. *)
Definition well_keyed (db : gmap string Game) : Prop :=
  ∀ gameId game, db !! gameId = Some game → id game = gameId.

(** No identifier occupies both slots of the row. *)
Definition slots_differ (game : Game) : Prop :=
  ∀ userId, ¬ (player1_id game = Some userId ∧ player2_id game = Some userId).

(** The status of the row is the one [resetGame] would compute. *)
Definition status_by_membership (game : Game) : Prop :=
  status game = if truthy_string (player2_id game) then playing else waiting.

(** The identifier a call would write into the second slot is not empty. *)
Definition joins_nonempty (c : Call) : Prop :=
  match c with
  | JoinGame _ userId => userId ≠ EmptyString
  | _ => True
  end.

(** * Properties *)

(** ** The outcome resolver *)

(** C4: [determineWinner] is a total function of its two arguments; it
    returns [null] exactly when a choice is absent, a draw exactly when the
    two choices are equal, and otherwise the side whose choice beats the
    other's under rock > scissors > paper > rock: the three winning pairs of
    player 1 are as listed, the mirrored pairs go to player 2, and swapping
    the two choices swaps the winner. *)
Theorem determineWinner_spec :
  (∀ c1 c2, determineWinner c1 c2 = None ↔ c1 = None ∨ c2 = None) ∧
  (∀ a b, determineWinner (Some a) (Some b) = Some draw ↔ a = b) ∧
  (∀ a b, determineWinner (Some a) (Some b) = Some player1 ↔ beats a b = true) ∧
  (∀ a b, determineWinner (Some a) (Some b) = Some player2 ↔ beats b a = true) ∧
  determineWinner (Some rock) (Some scissors) = Some player1 ∧
  determineWinner (Some paper) (Some rock) = Some player1 ∧
  determineWinner (Some scissors) (Some paper) = Some player1 ∧
  determineWinner (Some scissors) (Some rock) = Some player2 ∧
  determineWinner (Some rock) (Some paper) = Some player2 ∧
  determineWinner (Some paper) (Some scissors) = Some player2 ∧
  (∀ a b, determineWinner (Some a) (Some b) = Some player1 ↔
          determineWinner (Some b) (Some a) = Some player2).
Proof.
  split_and!; try reflexivity.
  - intros [[]|] [[]|]; vm_compute; intuition congruence.
  - intros [] []; vm_compute; split; congruence.
  - intros [] []; vm_compute; split; congruence.
  - intros [] []; vm_compute; split; congruence.
  - intros [] []; vm_compute; split; congruence.
Qed.

(** ** Shared facts about the requests and the actions *)

Lemma alter_present {A} (f : A → A) (m : gmap string A) (k : string) (x : A) :
  m !! k = Some x → alter f k m = <[k := f x]> m.
Proof.
  intros Hk. apply map_eq. intros j.
  destruct (decide (k = j)) as [->|Hne].
  - by rewrite lookup_alter_eq, lookup_insert_eq, Hk.
  - by rewrite lookup_alter_ne, lookup_insert_ne.
Qed.

Lemma makeMove_missing (db : gmap string Game) gameId playerId choice :
  db !! gameId = None →
  makeMove gameId playerId choice db = (ReplyError "Game not found", db).
Proof.
  intros Hk. unfold makeMove, run_action, makeMove_fetch, select_single.
  by rewrite Hk.
Qed.

Lemma makeMove_stranger (db : gmap string Game) gameId playerId choice game :
  db !! gameId = Some game →
  player1_id game ≠ Some playerId →
  player2_id game ≠ Some playerId →
  makeMove gameId playerId choice db =
    (ReplyError "Invalid player for this game", db).
Proof.
  intros Hk H1 H2. unfold makeMove, run_action, makeMove_fetch, select_single.
  rewrite Hk. by rewrite !bool_decide_eq_false_2.
Qed.

Lemma makeMove_fetch_bound (db : gmap string Game) gameId playerId choice game :
  db !! gameId = Some game →
  bound_to game playerId →
  makeMove_fetch gameId playerId choice db =
    Updates (makeMove_resolve game (isPlayer1 game playerId) choice
               (own_choice (isPlayer1 game playerId) choice)).
Proof.
  intros Hk Hb. unfold makeMove_fetch, select_single, isPlayer1.
  rewrite Hk. case_bool_decide as H1; [done|].
  destruct Hb as [?|H2]; [done|]. by rewrite bool_decide_eq_true_2.
Qed.

Lemma makeMove_bound (db : gmap string Game) gameId playerId choice game :
  db !! gameId = Some game →
  bound_to game playerId →
  makeMove gameId playerId choice db =
    (ReplySuccess,
     <[gameId :=
         apply_patch (makeMove_resolve game (isPlayer1 game playerId) choice
                        (own_choice (isPlayer1 game playerId) choice)) game]> db).
Proof.
  intros Hk Hb. unfold makeMove, run_action.
  rewrite (makeMove_fetch_bound _ _ _ _ _ Hk Hb).
  unfold makeMove_update, update_eq. by rewrite (alter_present _ _ _ _ Hk).
Qed.

(** ** Moves *)

(** Below [2^53] in magnitude adding one to a score is exact. *)
Lemma number_add_exact (n : Z) :
  (- 2 ^ 53 ≤ n < 2 ^ 53)%Z → number_add n 1 = (n + 1)%Z.
Proof.
  intros Hn. unfold number_add, number_round.
  destruct (Z.ltb_spec (Z.abs (n + 1)) (2 ^ 53)) as [Hlt|Hge]; [done|].
  assert (n + 1 = 2 ^ 53)%Z as -> by lia. reflexivity.
Qed.

(** From [2^53] on adding one is no longer exact: the sum is rounded to a
    neighbouring binary64 value. *)
Lemma number_add_rounds :
  number_add 9007199254740992 1 = 9007199254740992 ∧
  number_add 9007199254740994 1 = 9007199254740996.
Proof. by split. Qed.

(** C1 as amended: for an existing match and a caller bound to one of its
    slots, when the opponent's stored choice is present, so that the move
    makes both choices present, and both scores are integers from [-2^53]
    up to but not including [2^53], [determineWinner] is applied to the
    pair (the mover's choice on the mover's side, the stored choice on the
    other) and the one update object of the call carries the cleared
    choices, the result tag of the winner and the winner's score plus one;
    the stored row then has no pending choice, the tag as last result, the
    winner's score raised by exactly one and the other score (both scores
    on a draw) as before, and every other column as before. *)
Theorem makeMove_completes_round
    (db : gmap string Game) gameId playerId choice game c1 c2 :
  db !! gameId = Some game →
  (player1_id game = Some playerId ∧
   c1 = choice ∧ player2_choice game = Some c2) ∨
  (player1_id game ≠ Some playerId ∧ player2_id game = Some playerId ∧
   player1_choice game = Some c1 ∧ c2 = choice) →
  (- 2 ^ 53 ≤ player1_score game < 2 ^ 53)%Z →
  (- 2 ^ 53 ≤ player2_score game < 2 ^ 53)%Z →
  ∃ w updateData,
    determineWinner (Some c1) (Some c2) = Some w ∧
    makeMove_fetch gameId playerId choice db = Updates updateData ∧
    set_player1_choice updateData = Some None ∧
    set_player2_choice updateData = Some None ∧
    set_last_result updateData = Some (Some (result_tag w)) ∧
    set_player1_score updateData =
      (if bool_decide (w = player1) then Some (player1_score game + 1)%Z
       else None) ∧
    set_player2_score updateData =
      (if bool_decide (w = player2) then Some (player2_score game + 1)%Z
       else None) ∧
    makeMove gameId playerId choice db =
      (ReplySuccess,
       <[gameId :=
           {| id := id game;
              player1_id := player1_id game;
              player2_id := player2_id game;
              player1_choice := None;
              player2_choice := None;
              player1_score :=
                if bool_decide (w = player1) then (player1_score game + 1)%Z
                else player1_score game;
              player2_score :=
                if bool_decide (w = player2) then (player2_score game + 1)%Z
                else player2_score game;
              last_result := Some (result_tag w);
              status := status game |}]> db).
Proof.
  intros Hk Hside Hs1 Hs2.
  assert (Hb : bound_to game playerId).
  { destruct Hside as [(? & _)|(_ & ? & _)]; [by left|by right]. }
  assert (Hc1 : player1CurrentChoice game (isPlayer1 game playerId) choice
                = Some c1).
  { unfold player1CurrentChoice, isPlayer1.
    destruct Hside as [(H1 & -> & _)|(H1 & _ & Hc & _)].
    - by rewrite (bool_decide_eq_true_2 _ H1).
    - by rewrite (bool_decide_eq_false_2 _ H1). }
  assert (Hc2 : player2CurrentChoice game (isPlayer1 game playerId) choice
                = Some c2).
  { unfold player2CurrentChoice, isPlayer1.
    destruct Hside as [(H1 & _ & Hc)|(H1 & _ & _ & ->)].
    - by rewrite (bool_decide_eq_true_2 _ H1).
    - by rewrite (bool_decide_eq_false_2 _ H1). }
  rewrite (makeMove_bound _ _ _ _ _ Hk Hb), (makeMove_fetch_bound _ _ _ _ _ Hk Hb).
  destruct (determineWinner (Some c1) (Some c2)) as [w|] eqn:Hw;
    [|by destruct c1, c2].
  exists w, (makeMove_resolve game (isPlayer1 game playerId) choice
               (own_choice (isPlayer1 game playerId) choice)).
  unfold makeMove_resolve. rewrite Hc1, Hc2, Hw. cbn [truthy_choice andb].
  rewrite (number_add_exact _ Hs1), (number_add_exact _ Hs2).
  destruct w, (isPlayer1 game playerId); by split_and!.
Qed.

Lemma makeMove_completes_round_witness :
  let game := mkGame "g1" (Some "u1") (Some "u2") (Some rock) None 0 0 None
                     playing in
  let game' := mkGame "g1" (Some "u1") (Some "u2") None (Some paper) 1 0 None
                      playing in
  makeMove "g1" "u2" scissors {[ "g1" := game ]} =
    (ReplySuccess,
     {[ "g1" := mkGame "g1" (Some "u1") (Some "u2") None None 1 0
                       (Some "Player 1 wins this round!") playing ]}) ∧
  makeMove "g1" "u1" rock {[ "g1" := game' ]} =
    (ReplySuccess,
     {[ "g1" := mkGame "g1" (Some "u1") (Some "u2") None None 1 1
                       (Some "Player 2 wins this round!") playing ]}).
Proof.
  intros game game'. split.
  - assert (Hk : ({[ "g1" := game ]} : gmap string Game) !! "g1" = Some game)
      by reflexivity.
    assert (Hside :
      (player1_id game = Some "u2" ∧
       rock = scissors ∧ player2_choice game = Some scissors) ∨
      (player1_id game ≠ Some "u2" ∧ player2_id game = Some "u2" ∧
       player1_choice game = Some rock ∧ scissors = scissors)).
    { right. by split_and!. }
    destruct (makeMove_completes_round _ "g1" "u2" scissors game rock scissors
                Hk Hside)
      as (w & updateData & Hw & _ & _ & _ & _ & _ & _ & Hmove);
      [cbn; lia..|].
    vm_compute in Hw. injection Hw as <-.
    rewrite Hmove, insert_singleton_eq. reflexivity.
  - assert (Hk : ({[ "g1" := game' ]} : gmap string Game) !! "g1" = Some game')
      by reflexivity.
    assert (Hside :
      (player1_id game' = Some "u1" ∧
       rock = rock ∧ player2_choice game' = Some paper) ∨
      (player1_id game' ≠ Some "u1" ∧ player2_id game' = Some "u1" ∧
       player1_choice game' = Some rock ∧ paper = rock)).
    { left. by split_and!. }
    destruct (makeMove_completes_round _ "g1" "u1" rock game' rock paper
                Hk Hside)
      as (w & updateData & Hw & _ & _ & _ & _ & _ & _ & Hmove);
      [cbn; lia..|].
    vm_compute in Hw. injection Hw as <-.
    rewrite Hmove, insert_singleton_eq. reflexivity.
Defined.

(** C1 as stated fails: the first player's score is [2^53]; the second
    player's move completes a round that the first player wins, the result
    tag says so, and the stored score is still [2^53], not raised by one. *)
Lemma makeMove_score_not_raised :
  let game := mkGame "g1" (Some "u1") (Some "u2") (Some rock) None
                     9007199254740992 0 None playing in
  determineWinner (Some rock) (Some scissors) = Some player1 ∧
  makeMove "g1" "u2" scissors {[ "g1" := game ]} =
    (ReplySuccess,
     {[ "g1" := mkGame "g1" (Some "u1") (Some "u2") None None
                       9007199254740992 0
                       (Some "Player 1 wins this round!") playing ]}) ∧
  (9007199254740992 ≠ 9007199254740992 + 1)%Z.
Proof. split_and!; [reflexivity|by vm_compute|lia]. Qed.

(** C8: for an existing match and a caller bound to one of its slots, when
    the opponent's stored choice is absent, so that after the move only the
    mover's choice is present, the one update object of the call sets the
    last result to [null]; the stored row then holds the mover's choice, no
    choice of the opponent, no last result, and every other column as
    before. *)
Theorem makeMove_clears_last_result
    (db : gmap string Game) gameId playerId choice game :
  db !! gameId = Some game →
  (player1_id game = Some playerId ∧ player2_choice game = None) ∨
  (player1_id game ≠ Some playerId ∧ player2_id game = Some playerId ∧
   player1_choice game = None) →
  ∃ updateData,
    makeMove_fetch gameId playerId choice db = Updates updateData ∧
    set_last_result updateData = Some None ∧
    makeMove gameId playerId choice db =
      (ReplySuccess,
       <[gameId :=
           {| id := id game;
              player1_id := player1_id game;
              player2_id := player2_id game;
              player1_choice :=
                if bool_decide (player1_id game = Some playerId)
                then Some choice else None;
              player2_choice :=
                if bool_decide (player1_id game = Some playerId)
                then None else Some choice;
              player1_score := player1_score game;
              player2_score := player2_score game;
              last_result := None;
              status := status game |}]> db).
Proof.
  intros Hk Hside.
  assert (Hb : bound_to game playerId).
  { destruct Hside as [(? & _)|(_ & ? & _)]; [by left|by right]. }
  rewrite (makeMove_bound _ _ _ _ _ Hk Hb), (makeMove_fetch_bound _ _ _ _ _ Hk Hb).
  eexists; split; [reflexivity|].
  unfold makeMove_resolve, player1CurrentChoice, player2CurrentChoice,
    isPlayer1.
  destruct Hside as [(H1 & Hopp)|(H1 & _ & Hopp)].
  - rewrite (bool_decide_eq_true_2 _ H1). cbn [negb]. rewrite Hopp.
    split; [reflexivity|]. unfold apply_patch; cbn. by rewrite Hopp.
  - rewrite (bool_decide_eq_false_2 _ H1). cbn [negb]. rewrite Hopp.
    split; [reflexivity|]. unfold apply_patch; cbn. by rewrite Hopp.
Qed.

Lemma makeMove_clears_last_result_witness :
  let game := mkGame "g1" (Some "u1") (Some "u2") None None 1 0
                     (Some "Player 1 wins this round!") playing in
  makeMove "g1" "u1" paper {[ "g1" := game ]} =
    (ReplySuccess,
     {[ "g1" := mkGame "g1" (Some "u1") (Some "u2") (Some paper) None 1 0
                       None playing ]}) ∧
  makeMove "g1" "u2" rock {[ "g1" := game ]} =
    (ReplySuccess,
     {[ "g1" := mkGame "g1" (Some "u1") (Some "u2") None (Some rock) 1 0
                       None playing ]}).
Proof.
  intros game.
  assert (Hk : ({[ "g1" := game ]} : gmap string Game) !! "g1" = Some game)
    by reflexivity.
  split.
  - assert (Hside :
      (player1_id game = Some "u1" ∧ player2_choice game = None) ∨
      (player1_id game ≠ Some "u1" ∧ player2_id game = Some "u1" ∧
       player1_choice game = None)) by (left; by split).
    destruct (makeMove_clears_last_result _ "g1" "u1" paper game Hk Hside)
      as (updateData & _ & _ & Hmove).
    rewrite Hmove, insert_singleton_eq. reflexivity.
  - assert (Hside :
      (player1_id game = Some "u2" ∧ player2_choice game = None) ∨
      (player1_id game ≠ Some "u2" ∧ player2_id game = Some "u2" ∧
       player1_choice game = None)) by (right; by split_and!).
    destruct (makeMove_clears_last_result _ "g1" "u2" rock game Hk Hside)
      as (updateData & _ & _ & Hmove).
    rewrite Hmove, insert_singleton_eq. reflexivity.
Defined.

(** C10: [makeMove] does not look at the status of the match.  A missing
    match is answered "Game not found" and a caller bound to neither slot
    "Invalid player for this game", and in both cases the table is left as
    it was; these are the only rejections.  For an existing match and a bound
    caller the move succeeds whatever the status (also [waiting] with no
    second participant, or [finished]): the status column is kept, the rest
    of the stored row does not depend on it, and the mover's choice is
    stored when the opponent has no pending choice. *)
Theorem makeMove_ignores_status
    (db : gmap string Game) gameId playerId choice :
  (db !! gameId = None →
     makeMove gameId playerId choice db = (ReplyError "Game not found", db)) ∧
  (∀ game, db !! gameId = Some game → ¬ bound_to game playerId →
     makeMove gameId playerId choice db =
       (ReplyError "Invalid player for this game", db)) ∧
  (∀ game, db !! gameId = Some game → bound_to game playerId →
     ∃ game',
       makeMove gameId playerId choice db =
         (ReplySuccess, <[gameId := game']> db) ∧
       status game' = status game ∧
       (∀ st,
          let other :=
            mkGame (id game) (player1_id game) (player2_id game)
                   (player1_choice game) (player2_choice game)
                   (player1_score game) (player2_score game)
                   (last_result game) st in
          makeMove gameId playerId choice (<[gameId := other]> db) =
            (ReplySuccess,
             <[gameId :=
                 mkGame (id game') (player1_id game') (player2_id game')
                        (player1_choice game') (player2_choice game')
                        (player1_score game') (player2_score game')
                        (last_result game') st]> db)) ∧
       (player2_choice game = None → isPlayer1 game playerId = true →
          player1_choice game' = Some choice) ∧
       (player1_choice game = None → isPlayer1 game playerId = false →
          player2_choice game' = Some choice)) ∧
  (∀ error db',
     makeMove gameId playerId choice db = (ReplyError error, db') →
     db' = db ∧
     (db !! gameId = None ∨
      ∃ game, db !! gameId = Some game ∧ ¬ bound_to game playerId)).
Proof.
  split_and!.
  - apply makeMove_missing.
  - intros game Hk Hb. apply (makeMove_stranger _ _ _ _ _ Hk); intros ?; apply Hb.
    + by left.
    + by right.
  - intros game Hk Hb. eexists. split; [apply (makeMove_bound _ _ _ _ _ Hk Hb)|].
    split_and!.
    + unfold makeMove_resolve, own_choice.
      destruct (isPlayer1 game playerId);
        by repeat (case_match || case_bool_decide).
    + intros st other.
      assert (Hb' : bound_to other playerId) by exact Hb.
      rewrite (makeMove_bound _ _ _ _ other (lookup_insert_eq _ _ _) Hb').
      rewrite insert_insert_eq. do 2 f_equal.
      change (isPlayer1 other playerId) with (isPlayer1 game playerId).
      unfold makeMove_resolve, own_choice, player1CurrentChoice,
        player2CurrentChoice.
      destruct (isPlayer1 game playerId); cbn [negb];
        change (player1_choice other) with (player1_choice game);
        change (player2_choice other) with (player2_choice game);
        by repeat (case_match || case_bool_decide).
    + intros H2 H1. unfold makeMove_resolve, player2CurrentChoice.
      rewrite H1, H2. by cbn.
    + intros H1 H2. unfold makeMove_resolve, player1CurrentChoice.
      rewrite H2, H1. by cbn.
  - intros error db' Hmove.
    destruct (db !! gameId) as [game|] eqn:Hk.
    + destruct (decide (bound_to game playerId)) as [Hb|Hb].
      * rewrite (makeMove_bound _ _ _ _ _ Hk Hb) in Hmove. discriminate.
      * assert (Hs := makeMove_stranger db gameId playerId choice game Hk).
        rewrite Hs in Hmove.
        -- injection Hmove as _ <-. split; [done|]. right. by exists game.
        -- intros ?. apply Hb. by left.
        -- intros ?. apply Hb. by right.
    + rewrite (makeMove_missing _ _ _ _ Hk) in Hmove.
      injection Hmove as _ <-. split; [done|]. by left.
Qed.

Lemma makeMove_ignores_status_witness :
  let lobby := mkGame "g1" (Some "u1") None None None 0 0 None waiting in
  let over := mkGame "g1" (Some "u1") (Some "u2") None None 2 1 None finished in
  (∃ game', makeMove "g1" "u1" rock {[ "g1" := lobby ]} =
              (ReplySuccess, <[ "g1" := game' ]> {[ "g1" := lobby ]}) ∧
            status game' = waiting ∧ player1_choice game' = Some rock) ∧
  (∃ game', makeMove "g1" "u2" paper {[ "g1" := over ]} =
              (ReplySuccess, <[ "g1" := game' ]> {[ "g1" := over ]}) ∧
            status game' = finished ∧ player2_choice game' = Some paper) ∧
  makeMove "g2" "u1" rock {[ "g1" := lobby ]} =
    (ReplyError "Game not found", {[ "g1" := lobby ]}) ∧
  makeMove "g1" "u3" rock {[ "g1" := over ]} =
    (ReplyError "Invalid player for this game", {[ "g1" := over ]}).
Proof.
  intros lobby over. split_and!.
  - destruct (makeMove_ignores_status {[ "g1" := lobby ]} "g1" "u1" rock)
      as (_ & _ & Hok & _).
    destruct (Hok lobby eq_refl (or_introl eq_refl))
      as (game' & Hmove & Hst & _ & Hc & _).
    exists game'. split_and!; [exact Hmove|exact Hst|by apply Hc].
  - destruct (makeMove_ignores_status {[ "g1" := over ]} "g1" "u2" paper)
      as (_ & _ & Hok & _).
    destruct (Hok over eq_refl (or_intror eq_refl))
      as (game' & Hmove & Hst & _ & _ & Hc).
    exists game'. split_and!; [exact Hmove|exact Hst|by apply Hc].
  - destruct (makeMove_ignores_status {[ "g1" := lobby ]} "g2" "u1" rock)
      as (Hnone & _).
    by apply Hnone.
  - destruct (makeMove_ignores_status {[ "g1" := over ]} "g1" "u3" rock)
      as (_ & Hstr & _).
    apply (Hstr over eq_refl). by intros [?|?].
Defined.

(** ** Reset *)

Lemma resetGame_missing (db : gmap string Game) gameId :
  db !! gameId = None →
  resetGame gameId db = (ReplyError "Game not found", db).
Proof.
  intros Hk. unfold resetGame, run_action, resetGame_fetch, select_single.
  by rewrite Hk.
Qed.

Lemma resetGame_present (db : gmap string Game) gameId game :
  db !! gameId = Some game →
  resetGame gameId db =
    (ReplySuccess,
     <[gameId :=
         {| id := id game;
            player1_id := player1_id game;
            player2_id := player2_id game;
            player1_choice := None;
            player2_choice := None;
            player1_score := 0;
            player2_score := 0;
            last_result := None;
            status := if truthy_string (player2_id game)
                      then playing else waiting |}]> db).
Proof.
  intros Hk. unfold resetGame, run_action, resetGame_fetch, select_single.
  rewrite Hk. unfold resetGame_update, update_eq.
  by rewrite (alter_present _ _ _ _ Hk).
Qed.

(** C7: the claim does not hold of the code where the second slot holds the
    empty identifier.  Such a row has a second participant ([player2_id] is
    not [null]; [joinGame] writes it for a caller with that identifier), yet
    [resetGame] takes [game.player2_id] for absent and stores status
    [waiting] instead of [playing].  The list of open matches, which tests
    the same column with [is null], does not show the match. *)
Theorem resetGame_empty_second_participant :
  let game := mkGame "g1" (Some "u1") (Some EmptyString) (Some rock) None 2 1
                     None playing in
  let game' := mkGame "g1" (Some "u1") (Some EmptyString) None None 0 0
                      None waiting in
  player2_id game ≠ None ∧
  resetGame "g1" {[ "g1" := game ]} = (ReplySuccess, {[ "g1" := game' ]}) ∧
  status game' = waiting ∧
  games (getAvailableGames (λ _, 0) {[ "g1" := game' ]}) = [].
Proof. by split_and!. Qed.

(** X22: [resetGame] on a missing match answers "Game not found" and leaves
    the table as it was.  On an existing match it succeeds and the stored
    row has both choices cleared, both scores zero and no last result; its
    status is [waiting] when the second slot is [null] or holds the empty
    identifier and [playing] when it holds any other identifier; [id],
    [player1_id] and [player2_id] are as before, and so is every other row
    of the table. *)
Theorem resetGame_row (db : gmap string Game) gameId :
  (db !! gameId = None →
     resetGame gameId db = (ReplyError "Game not found", db)) ∧
  (∀ game, db !! gameId = Some game →
     resetGame gameId db =
       (ReplySuccess,
        <[gameId :=
            {| id := id game;
               player1_id := player1_id game;
               player2_id := player2_id game;
               player1_choice := None;
               player2_choice := None;
               player1_score := 0;
               player2_score := 0;
               last_result := None;
               status :=
                 match player2_id game with
                 | None => waiting
                 | Some userId =>
                     if decide (userId = EmptyString) then waiting
                     else playing
                 end |}]> db)).
Proof.
  split.
  - apply resetGame_missing.
  - intros game Hk. rewrite (resetGame_present _ _ _ Hk). do 3 f_equal.
    destruct (player2_id game) as [[|a u]|]; reflexivity.
Qed.

Lemma resetGame_row_witness :
  let game := mkGame "g1" (Some "u1") (Some "u2") (Some paper) None 1 0
                     None playing in
  let lobby := mkGame "g1" (Some "u1") None (Some rock) None 0 0
                      (Some "It's a draw!") playing in
  resetGame "g1" {[ "g1" := game ]} =
    (ReplySuccess,
     {[ "g1" := mkGame "g1" (Some "u1") (Some "u2") None None 0 0 None
                       playing ]}) ∧
  resetGame "g1" {[ "g1" := lobby ]} =
    (ReplySuccess,
     {[ "g1" := mkGame "g1" (Some "u1") None None None 0 0 None
                       waiting ]}) ∧
  resetGame "g2" {[ "g1" := game ]} =
    (ReplyError "Game not found", {[ "g1" := game ]}).
Proof.
  intros game lobby.
  destruct (resetGame_row {[ "g1" := game ]} "g1") as (_ & Hgame).
  destruct (resetGame_row {[ "g1" := lobby ]} "g1") as (_ & Hlobby).
  destruct (resetGame_row {[ "g1" := game ]} "g2") as (Hnone & _).
  split_and!.
  - rewrite (Hgame game eq_refl), insert_singleton_eq. reflexivity.
  - rewrite (Hlobby lobby eq_refl), insert_singleton_eq. reflexivity.
  - by apply Hnone.
Defined.

(** ** Creation *)

(** C9: when the id the table assigns is not taken (no storage failure),
    [createGame] succeeds with that id, the caller's identifier and player
    number 1, and stores a row whose first participant is the caller, whose
    status is [waiting], whose scores are zero and whose choices and second
    participant are unset; the other rows are as before. *)
Theorem createGame_spec (db : gmap string Game) newId userId :
  db !! newId = None →
  createGame newId userId db =
    (ReplyPlayer newId userId 1,
     <[newId :=
         {| id := newId;
            player1_id := Some userId;
            player2_id := None;
            player1_choice := None;
            player2_choice := None;
            player1_score := 0;
            player2_score := 0;
            last_result := None;
            status := waiting |}]> db).
Proof.
  intros Hk. unfold createGame, insert_select_single. by rewrite Hk.
Qed.

Lemma createGame_spec_witness :
  createGame "g1" "u1" ∅ =
    (ReplyPlayer "g1" "u1" 1,
     {[ "g1" := mkGame "g1" (Some "u1") None None None 0 0 None waiting ]}).
Proof.
  rewrite (createGame_spec ∅ "g1" "u1" (lookup_empty _)).
  by rewrite insert_empty.
Defined.

(** ** Admission *)

Lemma joinGame_fetch_missing (db : gmap string Game) gameId userId :
  db !! gameId = None →
  joinGame_fetch gameId userId db = Returns (ReplyError "Game not found").
Proof. intros Hk. unfold joinGame_fetch, select_single. by rewrite Hk. Qed.

Lemma joinGame_fetch_bound (db : gmap string Game) gameId userId game :
  db !! gameId = Some game →
  bound_to game userId →
  joinGame_fetch gameId userId db =
    Returns (ReplyPlayer (id game) userId
               (if isPlayer1 game userId then 1 else 2)).
Proof.
  intros Hk Hb. unfold joinGame_fetch, select_single, isPlayer1. rewrite Hk.
  destruct Hb as [H1|H2].
  - by rewrite (bool_decide_eq_true_2 _ H1).
  - rewrite (bool_decide_eq_true_2 _ H2). by rewrite orb_true_r.
Qed.

Lemma joinGame_fetch_unbound (db : gmap string Game) gameId userId game :
  db !! gameId = Some game →
  ¬ bound_to game userId →
  joinGame_fetch gameId userId db =
    if truthy_string (player2_id game)
    then Returns (ReplyError "Game is already full")
    else Updates (mkPatch None (Some (Some userId)) None None None None None
                          (Some playing)).
Proof.
  intros Hk Hb. unfold joinGame_fetch, select_single. rewrite Hk.
  rewrite !bool_decide_eq_false_2; [done| |]; intros ?; apply Hb.
  - by right.
  - by left.
Qed.

Lemma joinGame_update_present (db : gmap string Game) gameId userId p game :
  db !! gameId = Some game →
  joinGame_update gameId userId p db =
    (ReplyPlayer (id game) userId 2, <[gameId := apply_patch p game]> db).
Proof.
  intros Hk. unfold joinGame_update, update_select_single. by rewrite Hk.
Qed.

Lemma truthy_string_nonempty (s : string) :
  s ≠ EmptyString → truthy_string (Some s) = true.
Proof. intros Hs. by destruct s. Qed.

(** A caller bound to neither slot of a row with no second participant is
    admitted to slot 2. *)
Lemma joinGame_admits (db : gmap string Game) gameId userId game :
  db !! gameId = Some game →
  player1_id game ≠ Some userId →
  player2_id game = None →
  joinGame gameId userId db =
    (ReplyPlayer (id game) userId 2,
     <[gameId :=
         {| id := id game;
            player1_id := player1_id game;
            player2_id := Some userId;
            player1_choice := player1_choice game;
            player2_choice := player2_choice game;
            player1_score := player1_score game;
            player2_score := player2_score game;
            last_result := last_result game;
            status := playing |}]> db).
Proof.
  intros Hk H1 H2. unfold joinGame, run_action.
  rewrite (joinGame_fetch_unbound _ _ _ _ Hk).
  - rewrite H2. cbn [truthy_string].
    by rewrite (joinGame_update_present _ _ _ _ _ Hk).
  - intros [?|H]; [done|]. by rewrite H2 in H.
Qed.

(** A caller bound to neither slot of a row whose second participant is a
    non-empty identifier is turned away. *)
Lemma joinGame_full (db : gmap string Game) gameId userId game other :
  db !! gameId = Some game →
  ¬ bound_to game userId →
  player2_id game = Some other →
  other ≠ EmptyString →
  joinGame gameId userId db = (ReplyError "Game is already full", db).
Proof.
  intros Hk Hb H2 Hne. unfold joinGame, run_action.
  rewrite (joinGame_fetch_unbound _ _ _ _ Hk Hb), H2.
  by rewrite (truthy_string_nonempty _ Hne).
Qed.

(** A caller that already occupies a slot is answered with that slot and
    nothing is written. *)
Lemma joinGame_bound (db : gmap string Game) gameId userId game :
  db !! gameId = Some game →
  bound_to game userId →
  joinGame gameId userId db =
    (ReplyPlayer (id game) userId (if isPlayer1 game userId then 1 else 2), db).
Proof.
  intros Hk Hb. unfold joinGame, run_action.
  by rewrite (joinGame_fetch_bound _ _ _ _ Hk Hb).
Qed.

(** C5 as amended: [joinGame] answers "Game not found" when there is no match
    with the given id.  For a caller that occupies neither slot it answers
    "Game is already full" when the second slot holds a non-empty
    identifier, and when the second slot is unset it stores the caller as
    second participant with status [playing] and returns player number 2.
    In the two failures the table is left as it was. *)
Theorem joinGame_spec (db : gmap string Game) gameId userId :
  (db !! gameId = None →
     joinGame gameId userId db = (ReplyError "Game not found", db)) ∧
  (∀ game other,
     db !! gameId = Some game → ¬ bound_to game userId →
     player2_id game = Some other → other ≠ EmptyString →
     joinGame gameId userId db = (ReplyError "Game is already full", db)) ∧
  (∀ game,
     db !! gameId = Some game → ¬ bound_to game userId →
     player2_id game = None →
     joinGame gameId userId db =
       (ReplyPlayer (id game) userId 2,
        <[gameId :=
            {| id := id game;
               player1_id := player1_id game;
               player2_id := Some userId;
               player1_choice := player1_choice game;
               player2_choice := player2_choice game;
               player1_score := player1_score game;
               player2_score := player2_score game;
               last_result := last_result game;
               status := playing |}]> db)).
Proof.
  split_and!.
  - intros Hk. unfold joinGame, run_action.
    by rewrite (joinGame_fetch_missing _ _ _ Hk).
  - intros game other. apply joinGame_full.
  - intros game Hk Hb H2. apply (joinGame_admits _ _ _ _ Hk); [|done].
    intros ?. apply Hb. by left.
Qed.

Lemma joinGame_spec_witness :
  let lobby := mkGame "g1" (Some "u1") None None None 0 0 None waiting in
  let full := mkGame "g1" (Some "u1") (Some "u2") None None 0 0 None playing in
  joinGame "g2" "u2" {[ "g1" := lobby ]} =
    (ReplyError "Game not found", {[ "g1" := lobby ]}) ∧
  joinGame "g1" "u3" {[ "g1" := full ]} =
    (ReplyError "Game is already full", {[ "g1" := full ]}) ∧
  joinGame "g1" "u2" {[ "g1" := lobby ]} =
    (ReplyPlayer "g1" "u2" 2, {[ "g1" := full ]}).
Proof.
  intros lobby full. split_and!.
  - destruct (joinGame_spec {[ "g1" := lobby ]} "g2" "u2") as (Hnone & _).
    by apply Hnone.
  - destruct (joinGame_spec {[ "g1" := full ]} "g1" "u3") as (_ & Hfull & _).
    apply (Hfull full "u2"); [reflexivity| |reflexivity|discriminate].
    by intros [?|?].
  - destruct (joinGame_spec {[ "g1" := lobby ]} "g1" "u2") as (_ & _ & Hjoin).
    rewrite (Hjoin lobby); [|reflexivity| |reflexivity].
    + by rewrite insert_singleton_eq.
    + by intros [?|?].
Defined.

(** C5 as stated fails: the second slot of the match holds an identifier
    other than the caller's, yet the caller, who occupies the first slot, is
    answered with player number 1 and not with "Game is already full". *)
Lemma joinGame_occupied_not_full :
  let game := mkGame "g1" (Some "u1") (Some "u2") None None 0 0 None playing in
  ({[ "g1" := game ]} : gmap string Game) !! "g1" = Some game ∧
  player2_id game = Some "u2" ∧ "u2" ≠ "u1" ∧
  joinGame "g1" "u1" {[ "g1" := game ]} =
    (ReplyPlayer "g1" "u1" 1, {[ "g1" := game ]}) ∧
  fst (joinGame "g1" "u1" {[ "g1" := game ]}) ≠
    ReplyError "Game is already full".
Proof. by split_and!. Qed.

(** C6: for a match in which the caller already occupies a slot, [joinGame]
    returns the player number of that slot (1 for the first slot, 2 for the
    second) with the match id and the caller's identifier and leaves the
    table as it was; a second call gives the same answer and again writes
    nothing. *)
Theorem joinGame_idempotent (db : gmap string Game) gameId userId game :
  db !! gameId = Some game →
  bound_to game userId →
  let playerNumber :=
    if bool_decide (player1_id game = Some userId) then 1 else 2 in
  joinGame gameId userId db = (ReplyPlayer (id game) userId playerNumber, db) ∧
  joinGame gameId userId (snd (joinGame gameId userId db)) =
    (ReplyPlayer (id game) userId playerNumber, db) ∧
  (playerNumber = 1 ↔ player1_id game = Some userId) ∧
  (playerNumber = 2 ↔
     player2_id game = Some userId ∧ player1_id game ≠ Some userId).
Proof.
  intros Hk Hb playerNumber.
  assert (Hjoin : joinGame gameId userId db =
                    (ReplyPlayer (id game) userId playerNumber, db)).
  { apply (joinGame_bound _ _ _ _ Hk Hb). }
  split_and!.
  - exact Hjoin.
  - by rewrite Hjoin.
  - unfold playerNumber. case_bool_decide; split; intros; done.
  - unfold playerNumber. case_bool_decide as H1.
    + split; [done|]. by intros [_ ?].
    + split; [|done]. intros _. by destruct Hb.
Qed.

Lemma joinGame_idempotent_witness :
  let game := mkGame "g1" (Some "u1") (Some "u2") None None 0 0 None playing in
  joinGame "g1" "u2" {[ "g1" := game ]} =
    (ReplyPlayer "g1" "u2" 2, {[ "g1" := game ]}) ∧
  joinGame "g1" "u1" {[ "g1" := game ]} =
    (ReplyPlayer "g1" "u1" 1, {[ "g1" := game ]}).
Proof.
  intros game.
  assert (Hk : ({[ "g1" := game ]} : gmap string Game) !! "g1" = Some game)
    by reflexivity.
  split.
  - apply (joinGame_idempotent _ "g1" "u2" game Hk (or_intror eq_refl)).
  - apply (joinGame_idempotent _ "g1" "u1" game Hk (or_introl eq_refl)).
Defined.

(** ** Two admissions at once *)

(** A schedule that lets a call issue both its requests before the other
    call starts gives what the two calls give one after the other. *)
Lemma interleave_sequential (c1 c2 : Call) (db : gmap string Game) :
  interleave [false; false; true; true] (Called c1) (Called c2) db =
    (Returned (fst (call c1 db)),
     Returned (fst (call c2 (snd (call c1 db)))),
     snd (call c2 (snd (call c1 db)))) ∧
  interleave [true; true; false; false] (Called c1) (Called c2) db =
    (Returned (fst (call c1 (snd (call c2 db)))),
     Returned (fst (call c2 db)),
     snd (call c1 (snd (call c2 db)))).
Proof.
  unfold call, run_action. cbn [interleave task_step]. split.
  - destruct (call_fetch c1 db) as [r1|p1]; cbn [task_step fst snd].
    + destruct (call_fetch c2 db) as [r2|p2]; cbn [task_step fst snd]; [done|].
      by destruct (call_update c2 p2 db).
    + destruct (call_update c1 p1 db) as [r1 db1]; cbn [task_step fst snd].
      destruct (call_fetch c2 db1) as [r2|p2]; cbn [task_step fst snd]; [done|].
      by destruct (call_update c2 p2 db1).
  - destruct (call_fetch c2 db) as [r2|p2]; cbn [task_step fst snd].
    + destruct (call_fetch c1 db) as [r1|p1]; cbn [task_step fst snd]; [done|].
      by destruct (call_update c1 p1 db).
    + destruct (call_update c2 p2 db) as [r2 db2]; cbn [task_step fst snd].
      destruct (call_fetch c1 db2) as [r1|p1]; cbn [task_step fst snd]; [done|].
      by destruct (call_update c1 p1 db2).
Qed.

(** C3 as amended: on a match whose second slot is unset, for two different
    non-empty identifiers neither of which occupies the first slot, when one
    [joinGame] call issues both its requests before the other call starts,
    the earlier call takes the second slot with player number 2 and the
    later call is answered "Game is already full"; the second slot then holds
    the earlier caller. *)
Theorem joinGame_one_after_the_other
    (db : gmap string Game) gameId userA userB game :
  db !! gameId = Some game →
  player2_id game = None →
  player1_id game ≠ Some userA →
  player1_id game ≠ Some userB →
  userA ≠ userB →
  userA ≠ EmptyString →
  userB ≠ EmptyString →
  let joined userId :=
    <[gameId :=
        {| id := id game;
           player1_id := player1_id game;
           player2_id := Some userId;
           player1_choice := player1_choice game;
           player2_choice := player2_choice game;
           player1_score := player1_score game;
           player2_score := player2_score game;
           last_result := last_result game;
           status := playing |}]> db in
  interleave [false; false; true; true]
    (Called (JoinGame gameId userA)) (Called (JoinGame gameId userB)) db =
    (Returned (ReplyPlayer (id game) userA 2),
     Returned (ReplyError "Game is already full"),
     joined userA) ∧
  interleave [true; true; false; false]
    (Called (JoinGame gameId userA)) (Called (JoinGame gameId userB)) db =
    (Returned (ReplyError "Game is already full"),
     Returned (ReplyPlayer (id game) userB 2),
     joined userB).
Proof.
  intros Hk H2 HA HB Hne HAe HBe joined.
  assert (Hseq : ∀ u v, player1_id game ≠ Some u → player1_id game ≠ Some v →
                   u ≠ v → u ≠ EmptyString →
                   call (JoinGame gameId u) db =
                     (ReplyPlayer (id game) u 2, joined u) ∧
                   call (JoinGame gameId v) (joined u) =
                     (ReplyError "Game is already full", joined u)).
  { intros u v Hu Hv Huv Hue. split.
    - apply (joinGame_admits _ _ _ _ Hk Hu H2).
    - apply (joinGame_full _ _ _ _ u (lookup_insert_eq _ _ _)); [|done|done].
      intros [?|?]; [done|]. cbn in *. congruence. }
  destruct (interleave_sequential (JoinGame gameId userA)
              (JoinGame gameId userB) db) as [E1 E2].
  destruct (Hseq userA userB HA HB Hne HAe) as [EA1 EA2].
  destruct (Hseq userB userA HB HA (not_eq_sym Hne) HBe) as [EB1 EB2].
  rewrite E1, E2, EA1, EB1. cbn [fst snd]. by rewrite EA2, EB2.
Qed.

Lemma joinGame_one_after_the_other_witness :
  let game := mkGame "g1" (Some "u1") None None None 0 0 None waiting in
  interleave [false; false; true; true]
    (Called (JoinGame "g1" "u2")) (Called (JoinGame "g1" "u3"))
    {[ "g1" := game ]} =
    (Returned (ReplyPlayer "g1" "u2" 2),
     Returned (ReplyError "Game is already full"),
     {[ "g1" := mkGame "g1" (Some "u1") (Some "u2") None None 0 0 None
                       playing ]}).
Proof.
  intros game.
  assert (Hk : ({[ "g1" := game ]} : gmap string Game) !! "g1" = Some game)
    by reflexivity.
  destruct (joinGame_one_after_the_other _ "g1" "u2" "u3" game Hk eq_refl)
    as [-> _]; try discriminate.
  by rewrite insert_singleton_eq.
Defined.

(** When both calls fetch before either updates, each sees the second slot
    unset, each writes itself into it and each is told player number 2; the
    slot is left with the caller whose update came last. *)
Lemma joinGame_overlap_both_join
    (db : gmap string Game) gameId userA userB game (a b : bool) :
  db !! gameId = Some game →
  truthy_string (player2_id game) = false →
  ¬ bound_to game userA →
  ¬ bound_to game userB →
  interleave [a; negb a; b; negb b]
    (Called (JoinGame gameId userA)) (Called (JoinGame gameId userB)) db =
    (Returned (ReplyPlayer (id game) userA 2),
     Returned (ReplyPlayer (id game) userB 2),
     <[gameId :=
         {| id := id game;
            player1_id := player1_id game;
            player2_id := Some (if b then userA else userB);
            player1_choice := player1_choice game;
            player2_choice := player2_choice game;
            player1_score := player1_score game;
            player2_score := player2_score game;
            last_result := last_result game;
            status := playing |}]> db).
Proof.
  intros Hk H2 HA HB.
  assert (HfA := joinGame_fetch_unbound _ _ _ _ Hk HA).
  assert (HfB := joinGame_fetch_unbound _ _ _ _ Hk HB).
  rewrite H2 in HfA, HfB.
  destruct a, b; cbn [interleave negb];
    repeat (cbn [task_step call_fetch call_update];
            first [ rewrite HfA | rewrite HfB
                  | rewrite (joinGame_update_present _ _ _ _ _ Hk)
                  | rewrite (joinGame_update_present _ _ _ _ _
                               (lookup_insert_eq _ _ _)) ]);
    cbn [task_step]; by rewrite insert_insert_eq.
Qed.

(** C3 as stated fails: on a waiting match with no second participant, two
    callers with different identifiers whose fetches both come before the
    updates are both admitted to the second slot with player number 2, and
    neither is answered "Game is already full". *)
Lemma joinGame_race_both_join :
  let game := mkGame "g1" (Some "u1") None None None 0 0 None waiting in
  interleave [false; true; false; true]
    (Called (JoinGame "g1" "u2")) (Called (JoinGame "g1" "u3"))
    {[ "g1" := game ]} =
    (Returned (ReplyPlayer "g1" "u2" 2),
     Returned (ReplyPlayer "g1" "u3" 2),
     {[ "g1" := mkGame "g1" (Some "u1") (Some "u3") None None 0 0 None
                       playing ]}).
Proof. reflexivity. Qed.

(** ** No row with both choices pending *)

(** The row written by a move never holds both choices, whatever the row
    read: a completing move clears both, any other move finds the opponent's
    choice absent and leaves it so. *)
Lemma makeMove_row_not_both (game : Game) (first : bool) (choice : Choice) :
  both_chosen
    (apply_patch (makeMove_resolve game first choice (own_choice first choice))
                 game) = false.
Proof.
  unfold makeMove_resolve, player1CurrentChoice, player2CurrentChoice,
    own_choice, both_chosen.
  destruct first; cbn [negb truthy_choice andb].
  - destruct (player2_choice game) eqn:H2; cbn [truthy_choice].
    + by repeat case_bool_decide.
    + cbn. by rewrite H2.
  - destruct (player1_choice game) eqn:H1; cbn [truthy_choice andb].
    + by repeat case_bool_decide.
    + cbn. by rewrite H1.
Qed.

Lemma no_pair_pending_insert (db : gmap string Game) gameId game :
  no_pair_pending db → both_chosen game = false →
  no_pair_pending (<[gameId := game]> db).
Proof.
  intros Hdb Hg k g. rewrite lookup_insert.
  case_decide; [by intros [= <-]|]. apply Hdb.
Qed.

Lemma call_no_pair_pending (c : Call) (db : gmap string Game) :
  no_pair_pending db → no_pair_pending (snd (call c db)).
Proof.
  intros Hdb. destruct c as [gameId userId|gameId playerId choice|gameId].
  - change (call (JoinGame gameId userId) db) with (joinGame gameId userId db).
    destruct (db !! gameId) as [game|] eqn:Hk.
    + destruct (decide (bound_to game userId)) as [Hb|Hb].
      * unfold joinGame, run_action.
        by rewrite (joinGame_fetch_bound _ _ _ _ Hk Hb).
      * unfold joinGame, run_action.
        rewrite (joinGame_fetch_unbound _ _ _ _ Hk Hb).
        destruct (truthy_string (player2_id game)); [done|].
        rewrite (joinGame_update_present _ _ _ _ _ Hk).
        apply no_pair_pending_insert; [done|]. apply (Hdb _ _ Hk).
    + unfold joinGame, run_action.
      by rewrite (joinGame_fetch_missing _ _ _ Hk).
  - change (call (MakeMove gameId playerId choice) db)
      with (makeMove gameId playerId choice db).
    destruct (db !! gameId) as [game|] eqn:Hk.
    + destruct (decide (bound_to game playerId)) as [Hb|Hb].
      * rewrite (makeMove_bound _ _ _ _ _ Hk Hb).
        apply no_pair_pending_insert; [done|]. apply makeMove_row_not_both.
      * rewrite (makeMove_stranger _ _ _ _ _ Hk); [done| |];
          intros ?; apply Hb; [by left|by right].
    + by rewrite (makeMove_missing _ _ _ _ Hk).
  - change (call (ResetGame gameId) db) with (resetGame gameId db).
    destruct (db !! gameId) as [game|] eqn:Hk.
    + rewrite (resetGame_present _ _ _ Hk).
      by apply no_pair_pending_insert.
    + by rewrite (resetGame_missing _ _ Hk).
Qed.

(** While calls run one after the other, no table a reader can fetch holds
    a row with both choices. *)
Lemma no_table_shows_both_choices (calls : list Call) (db : gmap string Game) :
  no_pair_pending db →
  ∀ db', db' ∈ tables_seen calls db →
  ∀ gameId game, getGameState gameId db' = ReplyGame game →
  both_chosen game = false.
Proof.
  revert db. induction calls as [|c rest IH]; intros db Hdb db' Hin gameId game.
  - apply list_elem_of_singleton in Hin as ->.
    unfold getGameState, select_single.
    destruct (db !! gameId) as [g|] eqn:Hk; [|done].
    intros [= <-]. apply (Hdb _ _ Hk).
  - cbn [tables_seen] in Hin. apply elem_of_cons in Hin as [->|Hin].
    + unfold getGameState, select_single.
      destruct (db !! gameId) as [g|] eqn:Hk; [|done].
      intros [= <-]. apply (Hdb _ _ Hk).
    + apply (IH _ (call_no_pair_pending c db Hdb) db' Hin).
Qed.

Lemma both_chosen_false (game : Game) :
  both_chosen game = false ↔
  player1_choice game = None ∨ player2_choice game = None.
Proof.
  unfold both_chosen.
  destruct (player1_choice game), (player2_choice game); cbn; intuition congruence.
Qed.

(** C2 as amended: starting from a table in which no match holds both
    choices, while any list of [makeMove] calls (and of [joinGame] and
    [resetGame] calls) runs with every call issuing both its requests before
    the next call starts, every table that a reader can fetch, before the
    first call or after any call, returns each stored match with at least
    one of the two choices [null]: the update of the call that completes a
    pair clears both. *)
Theorem sequential_calls_show_no_pair
    (calls : list Call) (db : gmap string Game) :
  (∀ gameId game, db !! gameId = Some game →
     player1_choice game = None ∨ player2_choice game = None) →
  ∀ db', db' ∈ tables_seen calls db →
  ∀ gameId game, db' !! gameId = Some game →
  getGameState gameId db' = ReplyGame game ∧
  (player1_choice game = None ∨ player2_choice game = None).
Proof.
  intros Hdb db' Hin gameId game Hk.
  assert (Hread : getGameState gameId db' = ReplyGame game).
  { unfold getGameState, select_single. by rewrite Hk. }
  split; [exact Hread|]. apply both_chosen_false.
  apply (no_table_shows_both_choices calls db) with db' gameId; [|done..].
  intros k g Hg. apply both_chosen_false. by apply (Hdb k).
Qed.

Lemma sequential_calls_show_no_pair_witness :
  let game := mkGame "g1" (Some "u1") (Some "u2") None None 0 0 None playing in
  let calls := [MakeMove "g1" "u1" rock; MakeMove "g1" "u2" scissors;
                MakeMove "g1" "u2" paper] in
  (∀ gameId g, ({[ "g1" := game ]} : gmap string Game) !! gameId = Some g →
     player1_choice g = None ∨ player2_choice g = None) ∧
  ∀ db', db' ∈ tables_seen calls {[ "g1" := game ]} →
  ∀ gameId game', db' !! gameId = Some game' →
  getGameState gameId db' = ReplyGame game' ∧
  (player1_choice game' = None ∨ player2_choice game' = None).
Proof.
  intros game calls.
  assert (H0 : ∀ gameId g,
            ({[ "g1" := game ]} : gmap string Game) !! gameId = Some g →
            player1_choice g = None ∨ player2_choice g = None).
  { intros k g Hk. apply lookup_singleton_Some in Hk as [_ <-]. by left. }
  split; [exact H0|].
  apply (sequential_calls_show_no_pair calls _ H0).
Defined.

(** C2 as stated fails: the two players of a match with no pending choice
    move, and both fetches come before both updates; both calls succeed and
    a reader then fetches the match with both choices non-null, no score
    changed and no result, so the pair was not resolved by the update that
    produced it. *)
Lemma overlapping_moves_show_pair :
  let game := mkGame "g1" (Some "u1") (Some "u2") None None 0 0 None playing in
  let run :=
    interleave [false; true; false; true]
      (Called (MakeMove "g1" "u1" rock)) (Called (MakeMove "g1" "u2" paper))
      {[ "g1" := game ]} in
  fst run = (Returned ReplySuccess, Returned ReplySuccess) ∧
  getGameState "g1" (snd run) =
    ReplyGame (mkGame "g1" (Some "u1") (Some "u2") (Some rock) (Some paper)
                      0 0 None playing).
Proof. by split. Qed.

(** An accepted move leaves the row of its match without a pending pair,
    whatever the row held before. *)
Lemma makeMove_leaves_no_pair
    (db db' : gmap string Game) gameId playerId choice game' :
  makeMove gameId playerId choice db = (ReplySuccess, db') →
  db' !! gameId = Some game' →
  both_chosen game' = false.
Proof.
  intros Hmove Hk'.
  destruct (db !! gameId) as [game|] eqn:Hk.
  - destruct (decide (bound_to game playerId)) as [Hb|Hb].
    + rewrite (makeMove_bound _ _ _ _ _ Hk Hb) in Hmove.
      injection Hmove as <-. rewrite lookup_insert_eq in Hk'.
      injection Hk' as <-. apply makeMove_row_not_both.
    + rewrite (makeMove_stranger _ _ _ _ _ Hk) in Hmove; [done| |];
        intros ?; apply Hb; [by left|by right].
  - by rewrite (makeMove_missing _ _ _ _ Hk) in Hmove.
Qed.

(** ** Remarks on requests that overlap *)

(** The fetch of a call writes nothing: between the two requests of a call
    the table is the one before the call. *)
Lemma fetch_writes_nothing (c : Call) (db : gmap string Game) :
  snd (task_step (Called c) db) = db.
Proof. cbn [task_step]. by destruct (call_fetch c db). Qed.

(** A retried admission gives the player number of the first answer and
    writes nothing more. *)
Lemma joinGame_retry (db : gmap string Game) gameId userId gid pid n db' :
  joinGame gameId userId db = (ReplyPlayer gid pid n, db') →
  joinGame gameId userId db' = (ReplyPlayer gid pid n, db').
Proof.
  intros Hjoin.
  destruct (db !! gameId) as [game|] eqn:Hk.
  - destruct (decide (bound_to game userId)) as [Hb|Hb].
    + assert (E := joinGame_bound _ _ _ _ Hk Hb).
      rewrite E in Hjoin. injection Hjoin as <- <- <- <-. exact E.
    + unfold joinGame, run_action in Hjoin.
      rewrite (joinGame_fetch_unbound _ _ _ _ Hk Hb) in Hjoin.
      destruct (truthy_string (player2_id game)); [done|].
      rewrite (joinGame_update_present _ _ _ _ _ Hk) in Hjoin.
      injection Hjoin as <- <- <- <-.
      unfold joinGame, run_action.
      rewrite (joinGame_fetch_bound _ _ _ (apply_patch _ game)
                 (lookup_insert_eq _ _ _)); [|by right].
      unfold isPlayer1. cbn [apply_patch player1_id default set_player1_id].
      rewrite bool_decide_eq_false_2; [done|].
      intros ?. apply Hb. by left.
  - unfold joinGame, run_action in Hjoin.
    by rewrite (joinGame_fetch_missing _ _ _ Hk) in Hjoin.
Qed.

(** Two moves whose fetches both come before the updates each see the
    opponent's choice absent; both choices are then stored and the round is
    not resolved. *)
Lemma makeMove_overlap_leaves_pair :
  let game := mkGame "g1" (Some "u1") (Some "u2") None None 0 0 None playing in
  interleave [false; true; false; true]
    (Called (MakeMove "g1" "u1" rock)) (Called (MakeMove "g1" "u2" paper))
    {[ "g1" := game ]} =
    (Returned ReplySuccess, Returned ReplySuccess,
     {[ "g1" := mkGame "g1" (Some "u1") (Some "u2") (Some rock) (Some paper)
                       0 0 None playing ]}).
Proof. reflexivity. Qed.

(** * Further properties of the actions *)

(** ** What one call does to the table *)

(** The row a move writes keeps the identity columns and the status. *)
Lemma makeMove_row_frame (game : Game) (first : bool) (choice : Choice) :
  let game' :=
    apply_patch (makeMove_resolve game first choice (own_choice first choice))
                game in
  id game' = id game ∧ player1_id game' = player1_id game ∧
  player2_id game' = player2_id game ∧ status game' = status game.
Proof.
  unfold makeMove_resolve, own_choice.
  destruct first; by repeat (case_match || case_bool_decide).
Qed.

(** A call either leaves the table as it is, or replaces the row of its
    match by the row one of the three updates gives. *)
Lemma call_cases (c : Call) (db : gmap string Game) :
  snd (call c db) = db ∨
  ∃ game, db !! call_game c = Some game ∧
    ((∃ userId,
        c = JoinGame (call_game c) userId ∧ ¬ bound_to game userId ∧
        truthy_string (player2_id game) = false ∧
        snd (call c db) =
          <[call_game c :=
              apply_patch (mkPatch None (Some (Some userId)) None None None
                                   None None (Some playing)) game]> db) ∨
     (∃ playerId choice,
        c = MakeMove (call_game c) playerId choice ∧ bound_to game playerId ∧
        snd (call c db) =
          <[call_game c :=
              apply_patch (makeMove_resolve game (isPlayer1 game playerId)
                             choice (own_choice (isPlayer1 game playerId)
                                                choice)) game]> db) ∨
     (c = ResetGame (call_game c) ∧
      snd (call c db) =
        <[call_game c :=
            mkGame (id game) (player1_id game) (player2_id game) None None
                   0 0 None
                   (if truthy_string (player2_id game)
                    then playing else waiting)]> db)).
Proof.
  destruct c as [gameId userId|gameId playerId choice|gameId];
    cbn [call_game]; destruct (db !! gameId) as [game|] eqn:Hk.
  - change (call (JoinGame gameId userId) db) with (joinGame gameId userId db).
    destruct (decide (bound_to game userId)) as [Hb|Hb].
    + left. by rewrite (joinGame_bound _ _ _ _ Hk Hb).
    + unfold joinGame, run_action.
      rewrite (joinGame_fetch_unbound _ _ _ _ Hk Hb).
      destruct (truthy_string (player2_id game)) eqn:H2; [by left|].
      right. exists game. split; [done|]. left. exists userId.
      by rewrite (joinGame_update_present _ _ _ _ _ Hk).
  - left. unfold call, run_action. cbn [call_fetch].
    by rewrite (joinGame_fetch_missing _ _ _ Hk).
  - change (call (MakeMove gameId playerId choice) db)
      with (makeMove gameId playerId choice db).
    destruct (decide (bound_to game playerId)) as [Hb|Hb].
    + right. exists game. split; [done|]. right. left.
      exists playerId, choice. by rewrite (makeMove_bound _ _ _ _ _ Hk Hb).
    + left. rewrite (makeMove_stranger _ _ _ _ _ Hk); [done| |];
        intros ?; apply Hb; [by left|by right].
  - left. change (call (MakeMove gameId playerId choice) db)
      with (makeMove gameId playerId choice db).
    by rewrite (makeMove_missing _ _ _ _ Hk).
  - right. exists game. split; [done|]. right. right.
    change (call (ResetGame gameId) db) with (resetGame gameId db).
    by rewrite (resetGame_present _ _ _ Hk).
  - left. change (call (ResetGame gameId) db) with (resetGame gameId db).
    by rewrite (resetGame_missing _ _ Hk).
Qed.

Lemma call_replaces_row (c : Call) (db : gmap string Game) :
  snd (call c db) = db ∨
  ∃ game game', db !! call_game c = Some game ∧
                snd (call c db) = <[call_game c := game']> db.
Proof.
  destruct (call_cases c db) as [->|(game & Hk & Hcase)]; [by left|].
  right. exists game.
  destruct Hcase as [(? & _ & _ & _ & ->)|[(? & ? & _ & _ & ->)|[_ ->]]];
    by eexists.
Qed.

Lemma call_keeps_dom (c : Call) (db : gmap string Game) :
  dom (snd (call c db)) = dom db.
Proof.
  destruct (call_replaces_row c db) as [->|(game & game' & Hk & ->)]; [done|].
  rewrite dom_insert_L. apply elem_of_dom_2 in Hk.
  apply subseteq_union_1_L. by apply singleton_subseteq_l.
Qed.

(** X1: a [joinGame], [makeMove] or [resetGame] call never adds or removes a
    row and never touches the row of another match. *)
Theorem call_touches_one_row (c : Call) (db : gmap string Game) :
  dom (snd (call c db)) = dom db ∧
  ∀ other, other ≠ call_game c → snd (call c db) !! other = db !! other.
Proof.
  split; [apply call_keeps_dom|].
  destruct (call_replaces_row c db) as [->|(game & game' & Hk & ->)]; [done|].
  intros other Hne. by rewrite lookup_insert_ne.
Qed.

(** X2: when every row is stored under its own id, it still is after
    [createGame] and after any [joinGame], [makeMove] or [resetGame] call. *)
Theorem well_keyed_preserved (db : gmap string Game) :
  well_keyed db →
  (∀ newId userId, well_keyed (snd (createGame newId userId db))) ∧
  (∀ c, well_keyed (snd (call c db))).
Proof.
  intros Hwf. split.
  - intros newId userId. unfold createGame, insert_select_single.
    destruct (db !! newId) eqn:Hk; [done|]. cbn [snd].
    intros k g. rewrite lookup_insert. case_decide; [|apply Hwf].
    by intros [= <-].
  - intros c. destruct (call_cases c db) as [->|(game & Hk & Hcase)]; [done|].
    assert (∃ game', id game' = id game ∧
                     snd (call c db) = <[call_game c := game']> db)
      as (game' & Hid & ->).
    { destruct Hcase as [(? & _ & _ & _ & ->)|[(? & ? & _ & _ & ->)|[_ ->]]];
        eexists; (split; [|reflexivity]);
        [reflexivity|apply makeMove_row_frame|reflexivity]. }
    intros k g. rewrite lookup_insert. case_decide as Hc; [|apply Hwf].
    intros [= <-]. rewrite Hid, <- Hc. by apply Hwf.
Qed.

Lemma well_keyed_preserved_witness :
  let game := mkGame "g1" (Some "u1") None None None 0 0 None waiting in
  well_keyed {[ "g1" := game ]} ∧
  well_keyed (snd (createGame "g2" "u3" {[ "g1" := game ]})) ∧
  well_keyed (snd (call (JoinGame "g1" "u2") {[ "g1" := game ]})).
Proof.
  intros game.
  assert (H0 : well_keyed {[ "g1" := game ]}).
  { intros k g Hk. by apply lookup_singleton_Some in Hk as [<- <-]. }
  destruct (well_keyed_preserved _ H0) as [Hcreate Hcall].
  split_and!; [exact H0|apply Hcreate|apply Hcall].
Defined.

(** The row of a match after a call, against the row before it: the same
    row, or the row one of the three updates gives. *)
Lemma call_row_cases (c : Call) (db : gmap string Game) gameId game game' :
  db !! gameId = Some game →
  snd (call c db) !! gameId = Some game' →
  game' = game ∨
  (∃ userId,
     c = JoinGame gameId userId ∧ ¬ bound_to game userId ∧
     truthy_string (player2_id game) = false ∧
     game' = apply_patch (mkPatch None (Some (Some userId)) None None None
                                  None None (Some playing)) game) ∨
  (∃ playerId choice,
     c = MakeMove gameId playerId choice ∧ bound_to game playerId ∧
     game' = apply_patch (makeMove_resolve game (isPlayer1 game playerId)
                            choice (own_choice (isPlayer1 game playerId)
                                               choice)) game) ∨
  (c = ResetGame gameId ∧
   game' = mkGame (id game) (player1_id game) (player2_id game) None None
                  0 0 None
                  (if truthy_string (player2_id game)
                   then playing else waiting)).
Proof.
  intros Hk Hk'.
  destruct (call_cases c db) as [E|(g & Hg & Hcase)].
  - left. rewrite E in Hk'. congruence.
  - destruct (decide (call_game c = gameId)) as [Hc|Hc].
    + rewrite Hc in *. assert (g = game) as -> by congruence.
      right.
      destruct Hcase as [(u & ? & ? & ? & E)|[(p & ch & ? & ? & E)|[? E]]];
        rewrite E, lookup_insert_eq in Hk'; injection Hk' as <-.
      * left. by exists u.
      * right. left. by exists p, ch.
      * right. by right.
    + left.
      assert (snd (call c db) !! gameId = db !! gameId) as E.
      { destruct Hcase as [(? & _ & _ & _ & ->)|[(? & ? & _ & _ & ->)|[_ ->]]];
          by rewrite lookup_insert_ne. }
      congruence.
Qed.

(** X3: no call changes the id or the first participant of a match, and no
    call makes a match finished.  The second participant changes only when
    a [joinGame] call by a caller bound to neither slot finds the slot falsy
    ([null] or the empty identifier); the caller is then written into it. *)
Theorem bindings_kept (c : Call) (db : gmap string Game) gameId game game' :
  db !! gameId = Some game →
  snd (call c db) !! gameId = Some game' →
  id game' = id game ∧
  player1_id game' = player1_id game ∧
  (player2_id game' = player2_id game ∨
   ∃ userId, c = JoinGame gameId userId ∧ ¬ bound_to game userId ∧
             truthy_string (player2_id game) = false ∧
             player2_id game' = Some userId) ∧
  (status game' = finished → status game = finished).
Proof.
  intros Hk Hk'.
  destruct (call_row_cases c db gameId game game' Hk Hk')
    as [->|[(u & ? & ? & ? & ->)|[(p & ch & _ & _ & ->)|[_ ->]]]].
  - split_and!; auto.
  - split_and!; [done|done| |done]. right. by exists u.
  - destruct (makeMove_row_frame game (isPlayer1 game p) ch)
      as (? & ? & ? & Hst).
    split_and!; [done|done|by left|]. by rewrite Hst.
  - split_and!; [done|done|by left|]. cbn. by case_match.
Qed.

Lemma bindings_kept_witness :
  let game := mkGame "g1" (Some "u1") (Some "u2") None None 0 0 None playing in
  ∃ game',
    snd (call (MakeMove "g1" "u2" rock) {[ "g1" := game ]}) !! "g1" =
      Some game' ∧
    id game' = "g1" ∧ player1_id game' = Some "u1" ∧
    player2_id game' = Some "u2".
Proof.
  intros game.
  assert (Hk : ({[ "g1" := game ]} : gmap string Game) !! "g1" = Some game)
    by reflexivity.
  eexists. split; [reflexivity|].
  destruct (bindings_kept (MakeMove "g1" "u2" rock) _ "g1" game _ Hk eq_refl)
    as (Hid & H1 & _ & _).
  split_and!; [exact Hid|exact H1|reflexivity].
Defined.

(** X4: when no identifier occupies both slots of any match, this is still
    so after [createGame] and after any [joinGame], [makeMove] or
    [resetGame] call. *)
Theorem slots_differ_preserved (db : gmap string Game) :
  (∀ gameId game, db !! gameId = Some game → slots_differ game) →
  (∀ newId userId gameId game,
     snd (createGame newId userId db) !! gameId = Some game →
     slots_differ game) ∧
  (∀ c gameId game,
     snd (call c db) !! gameId = Some game → slots_differ game).
Proof.
  intros Hdb. split.
  - intros newId userId gameId game. unfold createGame, insert_select_single.
    destruct (db !! newId) eqn:Hk; [apply Hdb|]. cbn [snd].
    rewrite lookup_insert. case_decide; [|apply Hdb].
    intros [= <-] u [_ ?]. done.
  - intros c gameId game' Hk'.
    assert (is_Some (db !! gameId)) as [game Hk].
    { apply elem_of_dom. rewrite <- (call_keeps_dom c db).
      by apply elem_of_dom. }
    specialize (Hdb _ _ Hk).
    destruct (call_row_cases c db gameId game game' Hk Hk')
      as [->|[(u & _ & Hb & _ & ->)|[(p & ch & _ & _ & ->)|[_ ->]]]].
    + done.
    + intros v [H1 H2]. cbn in H1, H2. apply Hb. left. congruence.
    + destruct (makeMove_row_frame game (isPlayer1 game p) ch)
        as (_ & E1 & E2 & _).
      intros v. rewrite E1, E2. apply Hdb.
    + exact Hdb.
Qed.

Lemma slots_differ_preserved_witness :
  let game := mkGame "g1" (Some "u1") None None None 0 0 None waiting in
  slots_differ game ∧
  slots_differ (mkGame "g1" (Some "u1") (Some "u2") None None 0 0 None playing).
Proof.
  intros game.
  assert (H0 : ∀ gameId g, ({[ "g1" := game ]} : gmap string Game) !! gameId
                           = Some g → slots_differ g).
  { intros k g Hk. apply lookup_singleton_Some in Hk as [_ <-].
    by intros u [_ ?]. }
  split; [by apply (H0 "g1")|].
  destruct (slots_differ_preserved _ H0) as [_ Hcall].
  by apply (Hcall (JoinGame "g1" "u2") "g1").
Defined.

(** X5: when the status of every match is [playing] or [waiting] according
    to whether its second slot is truthy, this is still so after
    [createGame] and after any [makeMove] or [resetGame] call and any
    [joinGame] call by a non-empty identifier. *)
Theorem status_by_membership_preserved (db : gmap string Game) :
  (∀ gameId game, db !! gameId = Some game → status_by_membership game) →
  (∀ newId userId gameId game,
     snd (createGame newId userId db) !! gameId = Some game →
     status_by_membership game) ∧
  (∀ c gameId game,
     joins_nonempty c →
     snd (call c db) !! gameId = Some game → status_by_membership game).
Proof.
  intros Hdb. split.
  - intros newId userId gameId game. unfold createGame, insert_select_single.
    destruct (db !! newId) eqn:Hk; [apply Hdb|]. cbn [snd].
    rewrite lookup_insert. case_decide; [|apply Hdb]. by intros [= <-].
  - intros c gameId game' Hne Hk'.
    assert (is_Some (db !! gameId)) as [game Hk].
    { apply elem_of_dom. rewrite <- (call_keeps_dom c db).
      by apply elem_of_dom. }
    specialize (Hdb _ _ Hk).
    destruct (call_row_cases c db gameId game game' Hk Hk')
      as [->|[(u & -> & _ & _ & ->)|[(p & ch & _ & _ & ->)|[_ ->]]]].
    + done.
    + unfold status_by_membership. cbn.
      cbn in Hne. by destruct u.
    + destruct (makeMove_row_frame game (isPlayer1 game p) ch)
        as (_ & _ & E2 & Est).
      unfold status_by_membership. by rewrite E2, Est.
    + reflexivity.
Qed.

Lemma status_by_membership_preserved_witness :
  let game := mkGame "g1" (Some "u1") None None None 0 0 None waiting in
  status_by_membership game ∧
  status_by_membership
    (mkGame "g1" (Some "u1") (Some "u2") None None 0 0 None playing).
Proof.
  intros game.
  assert (H0 : ∀ gameId g, ({[ "g1" := game ]} : gmap string Game) !! gameId
                           = Some g → status_by_membership g).
  { intros k g Hk. by apply lookup_singleton_Some in Hk as [_ <-]. }
  split; [by apply (H0 "g1")|].
  destruct (status_by_membership_preserved _ H0) as [_ Hcall].
  apply (Hcall (JoinGame "g1" "u2") "g1"); [discriminate|reflexivity].
Defined.

(** A [joinGame] call by the empty identifier breaks the agreement of status
    and membership: the match is [playing] while its second slot is falsy,
    so the next caller is admitted over it. *)
Lemma joinGame_empty_identifier :
  let game := mkGame "g1" (Some "u1") None None None 0 0 None waiting in
  let db1 := snd (joinGame "g1" EmptyString {[ "g1" := game ]}) in
  db1 !! "g1" =
    Some (mkGame "g1" (Some "u1") (Some EmptyString) None None 0 0 None
                 playing) ∧
  joinGame "g1" "u3" db1 =
    (ReplyPlayer "g1" "u3" 2,
     {[ "g1" := mkGame "g1" (Some "u1") (Some "u3") None None 0 0 None
                       playing ]}).
Proof. by split. Qed.

(** X6: on a match whose scores are integers from [-2^53] up to but not
    including [2^53], a move never lowers a score, raises at most one of
    the two scores, and raises it by exactly one. *)
Theorem makeMove_scores_step
    (db : gmap string Game) gameId playerId choice game game' :
  db !! gameId = Some game →
  snd (makeMove gameId playerId choice db) !! gameId = Some game' →
  (- 2 ^ 53 ≤ player1_score game < 2 ^ 53)%Z →
  (- 2 ^ 53 ≤ player2_score game < 2 ^ 53)%Z →
  (player1_score game' = player1_score game ∧
   player2_score game' = player2_score game) ∨
  (player1_score game' = (player1_score game + 1)%Z ∧
   player2_score game' = player2_score game) ∨
  (player1_score game' = player1_score game ∧
   player2_score game' = (player2_score game + 1)%Z).
Proof.
  intros Hk Hk' Hs1 Hs2.
  destruct (call_row_cases (MakeMove gameId playerId choice) db gameId
              game game' Hk Hk')
    as [->|[(u & ? & _)|[(p & ch & _ & _ & ->)|[? _]]]]; try done.
  - by left.
  - unfold makeMove_resolve, own_choice.
    destruct (isPlayer1 game p);
      repeat (case_match || case_bool_decide); cbn;
      rewrite ?(number_add_exact _ Hs1), ?(number_add_exact _ Hs2); auto.
Qed.

Lemma makeMove_scores_step_witness :
  let game := mkGame "g1" (Some "u1") (Some "u2") (Some rock) None 3 2 None
                     playing in
  ∃ game',
    snd (makeMove "g1" "u2" paper {[ "g1" := game ]}) !! "g1" = Some game' ∧
    player1_score game' = 3 ∧ player2_score game' = 3.
Proof.
  intros game.
  assert (Hk : ({[ "g1" := game ]} : gmap string Game) !! "g1" = Some game)
    by reflexivity.
  eexists. split; [reflexivity|].
  destruct (makeMove_scores_step _ "g1" "u2" paper game _ Hk eq_refl)
    as [[? ?]|[[? ?]|[? ?]]]; try (cbn; lia); by split.
Defined.

(** ** How the actions compose *)

(** X7: while the opponent has no pending choice, a player may move again
    and the last choice wins: moving twice leaves the table exactly as the
    second move alone would. *)
Theorem makeMove_last_choice_wins
    (db : gmap string Game) gameId playerId first second game :
  db !! gameId = Some game →
  bound_to game playerId →
  player1CurrentChoice game (isPlayer1 game playerId) first = None ∨
  player2CurrentChoice game (isPlayer1 game playerId) first = None →
  makeMove gameId playerId second
    (snd (makeMove gameId playerId first db)) =
  makeMove gameId playerId second db.
Proof.
  intros Hk Hb Hone.
  rewrite (makeMove_bound _ _ _ first _ Hk Hb). cbn [snd].
  set (game1 := apply_patch _ game).
  assert (Hb1 : bound_to game1 playerId).
  { destruct (makeMove_row_frame game (isPlayer1 game playerId) first)
      as (_ & E1 & E2 & _).
    unfold bound_to, game1. by rewrite E1, E2. }
  rewrite (makeMove_bound _ _ _ second game1 (lookup_insert_eq _ _ _) Hb1).
  rewrite (makeMove_bound _ _ _ second _ Hk Hb), insert_insert_eq.
  do 2 f_equal.
  assert (isPlayer1 game1 playerId = isPlayer1 game playerId) as ->.
  { destruct (makeMove_row_frame game (isPlayer1 game playerId) first)
      as (_ & E1 & _).
    unfold isPlayer1, game1. by rewrite E1. }
  unfold game1, makeMove_resolve, own_choice, player1CurrentChoice,
    player2CurrentChoice in *.
  destruct (isPlayer1 game playerId); cbn [negb] in *;
    destruct Hone as [Hone|Hone]; try discriminate; rewrite Hone; cbn;
    by rewrite ?Hone.
Qed.

Lemma makeMove_last_choice_wins_witness :
  let game := mkGame "g1" (Some "u1") (Some "u2") None None 0 0 None playing in
  makeMove "g1" "u1" paper (snd (makeMove "g1" "u1" rock {[ "g1" := game ]})) =
  makeMove "g1" "u1" paper {[ "g1" := game ]}.
Proof.
  intros game.
  assert (Hk : ({[ "g1" := game ]} : gmap string Game) !! "g1" = Some game)
    by reflexivity.
  apply (makeMove_last_choice_wins _ "g1" "u1" rock paper game Hk
           (or_introl eq_refl) (or_intror eq_refl)).
Defined.

(** X8: in a match with two different participants and no pending choice,
    the outcome of a round does not depend on who moves first: both orders
    of the two moves leave the same table, with no pending choice, the tag
    of [determineWinner] on the two choices as last result and, the scores
    being integers from [-2^53] up to but not including [2^53], that
    winner's score raised by one. *)
Theorem round_order_irrelevant
    (db : gmap string Game) gameId user1 user2 choice1 choice2 game :
  db !! gameId = Some game →
  player1_id game = Some user1 →
  player2_id game = Some user2 →
  user1 ≠ user2 →
  player1_choice game = None →
  player2_choice game = None →
  (- 2 ^ 53 ≤ player1_score game < 2 ^ 53)%Z →
  (- 2 ^ 53 ≤ player2_score game < 2 ^ 53)%Z →
  ∃ w,
    determineWinner (Some choice1) (Some choice2) = Some w ∧
    let after :=
      <[gameId :=
          mkGame (id game) (Some user1) (Some user2) None None
                 (if bool_decide (w = player1) then (player1_score game + 1)%Z
                  else player1_score game)
                 (if bool_decide (w = player2) then (player2_score game + 1)%Z
                  else player2_score game)
                 (Some (result_tag w)) (status game)]> db in
    makeMove gameId user2 choice2 (snd (makeMove gameId user1 choice1 db)) =
      (ReplySuccess, after) ∧
    makeMove gameId user1 choice1 (snd (makeMove gameId user2 choice2 db)) =
      (ReplySuccess, after).
Proof.
  intros Hk H1 H2 Hne Hc1 Hc2 Hs1 Hs2.
  assert (Hb1 : bound_to game user1) by by left.
  assert (Hb2 : bound_to game user2) by by right.
  assert (Hp1 : isPlayer1 game user1 = true).
  { unfold isPlayer1. by rewrite bool_decide_eq_true_2. }
  assert (Hp2 : isPlayer1 game user2 = false).
  { unfold isPlayer1. rewrite bool_decide_eq_false_2; [done|]. congruence. }
  destruct (determineWinner (Some choice1) (Some choice2)) as [w|] eqn:Hw;
    [|by destruct choice1, choice2].
  exists w. split; [done|]. cbn zeta.
  rewrite (makeMove_bound _ _ _ choice1 _ Hk Hb1),
          (makeMove_bound _ _ _ choice2 _ Hk Hb2).
  cbn [snd]. rewrite Hp1, Hp2.
  set (g1 := apply_patch _ game). set (g2 := apply_patch _ game).
  assert (Hg1 : g1 = mkGame (id game) (Some user1) (Some user2)
                            (Some choice1) None (player1_score game)
                            (player2_score game) None (status game)).
  { unfold g1, makeMove_resolve, player1CurrentChoice, player2CurrentChoice.
    cbn. rewrite Hc2. unfold apply_patch. cbn. by rewrite H1, H2, Hc2. }
  assert (Hg2 : g2 = mkGame (id game) (Some user1) (Some user2)
                            None (Some choice2) (player1_score game)
                            (player2_score game) None (status game)).
  { unfold g2, makeMove_resolve, player1CurrentChoice, player2CurrentChoice.
    cbn. rewrite Hc1. unfold apply_patch. cbn. by rewrite H1, H2, Hc1. }
  clearbody g1 g2. subst g1 g2.
  split.
  - rewrite (makeMove_bound _ _ _ choice2 _ (lookup_insert_eq _ _ _));
      [|by right].
    rewrite insert_insert_eq. do 2 f_equal.
    unfold isPlayer1. cbn [player1_id].
    rewrite bool_decide_eq_false_2 by congruence.
    unfold makeMove_resolve, player1CurrentChoice, player2CurrentChoice.
    cbn [negb player1_choice player2_choice truthy_choice andb].
    rewrite Hw. cbn [player1_score player2_score].
    rewrite (number_add_exact _ Hs1), (number_add_exact _ Hs2).
    by destruct w.
  - rewrite (makeMove_bound _ _ _ choice1 _ (lookup_insert_eq _ _ _));
      [|by left].
    rewrite insert_insert_eq. do 2 f_equal.
    unfold isPlayer1. cbn [player1_id].
    rewrite bool_decide_eq_true_2 by done.
    unfold makeMove_resolve, player1CurrentChoice, player2CurrentChoice.
    cbn [negb player1_choice player2_choice truthy_choice andb].
    rewrite Hw. cbn [player1_score player2_score].
    rewrite (number_add_exact _ Hs1), (number_add_exact _ Hs2).
    by destruct w.
Qed.

Lemma round_order_irrelevant_witness :
  let game := mkGame "g1" (Some "u1") (Some "u2") None None 0 0 None playing in
  let after :=
    {[ "g1" := mkGame "g1" (Some "u1") (Some "u2") None None 0 1
                      (Some "Player 2 wins this round!") playing ]} in
  makeMove "g1" "u2" paper (snd (makeMove "g1" "u1" rock {[ "g1" := game ]})) =
    (ReplySuccess, after) ∧
  makeMove "g1" "u1" rock (snd (makeMove "g1" "u2" paper {[ "g1" := game ]})) =
    (ReplySuccess, after).
Proof.
  intros game after.
  assert (Hk : ({[ "g1" := game ]} : gmap string Game) !! "g1" = Some game)
    by reflexivity.
  destruct (round_order_irrelevant _ "g1" "u1" "u2" rock paper game Hk
              eq_refl eq_refl) as (w & Hw & E1 & E2);
    [discriminate|reflexivity|reflexivity|cbn; lia|cbn; lia|].
  vm_compute in Hw. injection Hw as <-.
  rewrite E1, E2, insert_singleton_eq. by split.
Defined.

(** X9: [resetGame] forgets the moves and is idempotent: resetting after a
    move on the match leaves the table as resetting alone does, and a second
    reset changes nothing. *)
Theorem resetGame_absorbs (db : gmap string Game) gameId :
  (∀ playerId choice,
     snd (resetGame gameId (snd (makeMove gameId playerId choice db))) =
     snd (resetGame gameId db)) ∧
  snd (resetGame gameId (snd (resetGame gameId db))) =
    snd (resetGame gameId db).
Proof.
  destruct (db !! gameId) as [game|] eqn:Hk.
  - split.
    + intros playerId choice.
      destruct (decide (bound_to game playerId)) as [Hb|Hb].
      * rewrite (makeMove_bound _ _ _ _ _ Hk Hb). cbn [snd].
        rewrite (resetGame_present _ _ _ (lookup_insert_eq _ _ _)),
                (resetGame_present _ _ _ Hk).
        cbn [snd]. rewrite insert_insert_eq.
        destruct (makeMove_row_frame game (isPlayer1 game playerId) choice)
          as (-> & -> & -> & _).
        done.
      * rewrite (makeMove_stranger _ _ _ _ _ Hk); [done| |];
          intros ?; apply Hb; [by left|by right].
    + rewrite (resetGame_present _ _ _ Hk). cbn [snd].
      rewrite (resetGame_present _ _ _ (lookup_insert_eq _ _ _)).
      cbn [snd id player1_id player2_id]. by rewrite insert_insert_eq.
  - split.
    + intros playerId choice. by rewrite (makeMove_missing _ _ _ _ Hk).
    + rewrite (resetGame_missing _ _ Hk). cbn [snd].
      by rewrite (resetGame_missing _ _ Hk).
Qed.

(** X10: a successful [joinGame] answer is true of the table it leaves: the
    row of the match has the answered id, the caller is the participant of
    the answered slot (slot 2 only when the caller is not in slot 1), and a
    move by the caller on that match is then accepted. *)
Theorem joinGame_reply_sound
    (db db' : gmap string Game) gameId userId gid pid n :
  joinGame gameId userId db = (ReplyPlayer gid pid n, db') →
  ∃ game',
    db' !! gameId = Some game' ∧ gid = id game' ∧ pid = userId ∧
    ((n = 1 ∧ player1_id game' = Some userId) ∨
     (n = 2 ∧ player2_id game' = Some userId ∧
      player1_id game' ≠ Some userId)) ∧
    ∀ choice, fst (makeMove gameId userId choice db') = ReplySuccess.
Proof.
  intros Hjoin.
  destruct (db !! gameId) as [game|] eqn:Hk.
  - destruct (decide (bound_to game userId)) as [Hb|Hb].
    + rewrite (joinGame_bound _ _ _ _ Hk Hb) in Hjoin.
      injection Hjoin as <- <- <- <-. exists game. split_and!; [done..| |].
      * unfold isPlayer1. case_bool_decide as H1; [by left|].
        right. by destruct Hb.
      * intros choice. by rewrite (makeMove_bound _ _ _ _ _ Hk Hb).
    + unfold joinGame, run_action in Hjoin.
      rewrite (joinGame_fetch_unbound _ _ _ _ Hk Hb) in Hjoin.
      destruct (truthy_string (player2_id game)); [done|].
      rewrite (joinGame_update_present _ _ _ _ _ Hk) in Hjoin.
      injection Hjoin as <- <- <- <-. eexists.
      split; [apply lookup_insert_eq|]. split_and!; [done..| |].
      * right. split_and!; [done..|]. intros ?. apply Hb. by left.
      * intros choice.
        rewrite (makeMove_bound _ _ _ _ _ (lookup_insert_eq _ _ _));
          [done|by right].
  - unfold joinGame, run_action in Hjoin.
    by rewrite (joinGame_fetch_missing _ _ _ Hk) in Hjoin.
Qed.

Lemma joinGame_reply_sound_witness :
  let game := mkGame "g1" (Some "u1") None None None 0 0 None waiting in
  fst (makeMove "g1" "u2" rock
         (snd (joinGame "g1" "u2" {[ "g1" := game ]}))) = ReplySuccess.
Proof.
  intros game.
  assert (Hjoin : joinGame "g1" "u2" {[ "g1" := game ]} =
                    (ReplyPlayer "g1" "u2" 2,
                     snd (joinGame "g1" "u2" {[ "g1" := game ]})))
    by reflexivity.
  destruct (joinGame_reply_sound _ _ _ _ _ _ _ Hjoin)
    as (game' & _ & _ & _ & _ & Hmove).
  exact (Hmove rock).
Defined.

(** X11: a successful [createGame] answers with the assigned id, the caller
    and player number 1; [getGameState] on that id then returns the new
    match with the caller as only participant, a move by the caller on it is
    accepted, and every match that was in the table is as it was. *)
Theorem createGame_then_read
    (db db' : gmap string Game) newId userId gid pid n :
  createGame newId userId db = (ReplyPlayer gid pid n, db') →
  gid = newId ∧ pid = userId ∧ n = 1 ∧
  getGameState gid db' =
    ReplyGame (mkGame newId (Some userId) None None None 0 0 None waiting) ∧
  (∀ choice, fst (makeMove gid userId choice db') = ReplySuccess) ∧
  (∀ other game, db !! other = Some game → db' !! other = Some game).
Proof.
  unfold createGame, insert_select_single.
  destruct (db !! newId) eqn:Hk; [done|]. intros [= <- <- <- <-].
  split_and!; [done..| | |].
  - unfold getGameState, select_single. cbn [id apply_patch column_defaults].
    by rewrite lookup_insert_eq.
  - intros choice. cbn [id apply_patch column_defaults].
    rewrite (makeMove_bound _ _ _ _ _ (lookup_insert_eq _ _ _)); [done|].
    by left.
  - intros other game Ho. rewrite lookup_insert_ne; [done|]. congruence.
Qed.

Lemma createGame_then_read_witness :
  getGameState "g1" (snd (createGame "g1" "u1" ∅)) =
    ReplyGame (mkGame "g1" (Some "u1") None None None 0 0 None waiting).
Proof.
  assert (Hcreate : createGame "g1" "u1" ∅ =
                      (ReplyPlayer "g1" "u1" 1,
                       snd (createGame "g1" "u1" ∅)))
    by reflexivity.
  destruct (createGame_then_read _ _ _ _ _ _ _ Hcreate)
    as (_ & _ & _ & Hread & _).
  exact Hread.
Defined.

(** ** The lobby list *)

#[global] Instance newest_first_total : Total newest_first.
Proof. intros a b. unfold newest_first. lia. Qed.

#[global] Instance newest_first_trans : Transitive newest_first.
Proof. intros a b c. unfold newest_first. lia. Qed.

Lemma elem_of_games (created_at : string → Z) (db : gmap string Game)
    (entry : AvailableGame) :
  entry ∈ games (getAvailableGames created_at db) ↔
  ∃ gameId game,
    db !! gameId = Some game ∧ player2_id game = None ∧
    status game = waiting ∧
    entry = mkAvailableGame (id game) (player1_id game) (created_at gameId).
Proof.
  unfold getAvailableGames, select_waiting. cbn [games].
  rewrite merge_sort_Permutation, list_elem_of_omap. split.
  - intros ([k g] & Hin & Hrow). apply elem_of_map_to_list in Hin.
    cbn [fst snd] in Hrow.
    destruct (bool_decide (player2_id g = None)) eqn:H2; [|done].
    destruct (bool_decide (status g = waiting)) eqn:Hst; [|done].
    apply bool_decide_eq_true_1 in H2, Hst. injection Hrow as <-.
    by exists k, g.
  - intros (k & g & Hk & H2 & Hst & ->). exists (k, g).
    split; [by apply elem_of_map_to_list|]. cbn [fst snd].
    by rewrite !bool_decide_eq_true_2.
Qed.

(** X12: [getAvailableGames] reports no error and lists exactly the matches
    whose second participant is [null] and whose status is [waiting], each
    with its id, first participant and creation time. *)
Theorem getAvailableGames_lists_waiting
    (created_at : string → Z) (db : gmap string Game) :
  games_error (getAvailableGames created_at db) = None ∧
  ∀ entry,
    entry ∈ games (getAvailableGames created_at db) ↔
    ∃ gameId game,
      db !! gameId = Some game ∧ player2_id game = None ∧
      status game = waiting ∧
      entry = mkAvailableGame (id game) (player1_id game) (created_at gameId).
Proof. split; [done|]. apply elem_of_games. Qed.

(** X13: the list of [getAvailableGames] is ordered by creation time, newest
    first: no entry is older than an entry that comes after it. *)
Theorem getAvailableGames_newest_first
    (created_at : string → Z) (db : gmap string Game) (i j : nat)
    (earlier later : AvailableGame) :
  games (getAvailableGames created_at db) !! i = Some earlier →
  games (getAvailableGames created_at db) !! j = Some later →
  (i < j)%nat →
  (available_created_at later ≤ available_created_at earlier)%Z.
Proof.
  unfold getAvailableGames, select_waiting. cbn [games].
  set (rows := omap _ _).
  assert (Hs := StronglySorted_merge_sort newest_first rows).
  revert i j. induction Hs as [|x l Hs IH Hall]; intros i j Hi Hj Hlt.
  - done.
  - destruct j as [|j]; [lia|]. destruct i as [|i].
    + injection Hi as <-. cbn in Hj.
      apply (proj1 (Forall_forall _ _) Hall). by eapply list_elem_of_lookup_2.
    + cbn in Hi, Hj. apply (IH i j Hi Hj). lia.
Qed.

Lemma getAvailableGames_newest_first_witness :
  let db : gmap string Game :=
    {[ "g1" := mkGame "g1" (Some "u1") None None None 0 0 None waiting;
       "g2" := mkGame "g2" (Some "u2") None None None 0 0 None waiting ]} in
  let created_at (gameId : string) := if String.eqb gameId "g1" then 10 else 20 in
  games (getAvailableGames created_at db) =
    [mkAvailableGame "g2" (Some "u2") 20; mkAvailableGame "g1" (Some "u1") 10] ∧
  (10 ≤ 20)%Z.
Proof.
  intros db created_at.
  assert (Hgames : games (getAvailableGames created_at db) =
            [mkAvailableGame "g2" (Some "u2") 20;
             mkAvailableGame "g1" (Some "u1") 10]) by (vm_compute; reflexivity).
  split; [exact Hgames|].
  apply (getAvailableGames_newest_first created_at db 0 1
           (mkAvailableGame "g2" (Some "u2") 20)
           (mkAvailableGame "g1" (Some "u1") 10)).
  - by rewrite Hgames.
  - by rewrite Hgames.
  - lia.
Defined.

(** X14: when every row is stored under its own id, no match appears twice
    in the list of [getAvailableGames]. *)
Theorem getAvailableGames_no_duplicates
    (created_at : string → Z) (db : gmap string Game) :
  well_keyed db →
  NoDup (available_id <$> games (getAvailableGames created_at db)).
Proof.
  intros Hwf. unfold getAvailableGames, select_waiting. cbn [games].
  rewrite merge_sort_Permutation.
  assert (Hkeys : ∀ row, row ∈ map_to_list db → id row.2 = row.1).
  { intros [k g] Hin. apply elem_of_map_to_list in Hin. by apply Hwf. }
  assert (Hnd := NoDup_fst_map_to_list db).
  induction (map_to_list db) as [|[k g] rows IH]; [constructor|].
  cbn [omap list_omap fmap list_fmap fst snd] in *.
  apply NoDup_cons in Hnd as [Hk Hnd].
  assert (Hrest : ∀ row, row ∈ rows → id row.2 = row.1).
  { intros row Hin. apply Hkeys. by right. }
  specialize (IH Hrest Hnd).
  destruct (bool_decide (player2_id g = None) && bool_decide (status g = waiting));
    [|exact IH].
  cbn [fmap list_fmap available_id]. apply NoDup_cons. split; [|exact IH].
  intros Hin. apply Hk.
  apply list_elem_of_fmap in Hin as (entry & Hid & Hin).
  apply list_elem_of_omap in Hin as ([k' g'] & Hin' & Hrow).
  cbn [fst snd] in Hrow. case_match; [|done]. injection Hrow as <-.
  cbn [available_id] in Hid.
  assert (k = k') as ->.
  { assert (E1 := Hkeys (k, g) (list_elem_of_here _ _)).
    assert (E2 := Hrest (k', g') Hin').
    cbn [fst snd] in E1, E2. congruence. }
  apply list_elem_of_fmap. by exists (k', g').
Qed.

Lemma getAvailableGames_no_duplicates_witness :
  let db : gmap string Game :=
    {[ "g1" := mkGame "g1" (Some "u1") None None None 0 0 None waiting;
       "g2" := mkGame "g2" (Some "u2") None None None 0 0 None waiting ]} in
  well_keyed db ∧
  NoDup (available_id <$> games (getAvailableGames (λ _, 0) db)).
Proof.
  intros db.
  assert (H0 : well_keyed db).
  { intros k g Hk. unfold db in Hk.
    apply lookup_insert_Some in Hk as [[<- <-]|[_ Hk]]; [done|].
    by apply lookup_singleton_Some in Hk as [<- <-]. }
  split; [exact H0|]. apply (getAvailableGames_no_duplicates _ _ H0).
Defined.

(** X15: every listed match admits any caller other than its first
    participant: [joinGame] on a listed id answers player number 2, and the
    match is then no longer listed. *)
Theorem listed_game_admits
    (created_at : string → Z) (db : gmap string Game) entry userId :
  well_keyed db →
  entry ∈ games (getAvailableGames created_at db) →
  available_player1_id entry ≠ Some userId →
  fst (joinGame (available_id entry) userId db) =
    ReplyPlayer (available_id entry) userId 2 ∧
  ∀ entry',
    entry' ∈ games (getAvailableGames created_at
                      (snd (joinGame (available_id entry) userId db))) →
    available_id entry' ≠ available_id entry.
Proof.
  intros Hwf Hin H1.
  apply elem_of_games in Hin as (k & g & Hk & H2 & _ & ->).
  cbn [available_id available_player1_id] in *.
  rewrite (Hwf _ _ Hk).
  rewrite (joinGame_admits _ _ _ _ Hk H1 H2). cbn [fst snd].
  split; [by rewrite (Hwf _ _ Hk)|].
  intros entry' Hin'.
  apply elem_of_games in Hin' as (k' & g' & Hk' & H2' & _ & ->).
  cbn [available_id]. intros Hid.
  rewrite lookup_insert in Hk'. case_decide as Hkk.
  - injection Hk' as <-. done.
  - apply Hkk. rewrite <- Hid. by apply Hwf.
Qed.

Lemma listed_game_admits_witness :
  let game := mkGame "g1" (Some "u1") None None None 0 0 None waiting in
  fst (joinGame "g1" "u2" {[ "g1" := game ]}) = ReplyPlayer "g1" "u2" 2.
Proof.
  intros game.
  assert (H0 : well_keyed {[ "g1" := game ]}).
  { intros k g Hk. by apply lookup_singleton_Some in Hk as [<- <-]. }
  assert (Hin : mkAvailableGame "g1" (Some "u1") 0 ∈
                  games (getAvailableGames (λ _, 0) {[ "g1" := game ]})).
  { vm_compute. left. }
  assert (Hne : available_player1_id (mkAvailableGame "g1" (Some "u1") 0)
                  ≠ Some "u2") by discriminate.
  exact (proj1 (listed_game_admits _ _ _ "u2" H0 Hin Hne)).
Defined.

(** X16: a match just created is listed by [getAvailableGames], with its
    creator and its creation time. *)
Theorem created_game_is_listed
    (created_at : string → Z) (db : gmap string Game) newId userId :
  db !! newId = None →
  mkAvailableGame newId (Some userId) (created_at newId) ∈
    games (getAvailableGames created_at (snd (createGame newId userId db))).
Proof.
  intros Hk. apply elem_of_games.
  exists newId, (mkGame newId (Some userId) None None None 0 0 None waiting).
  unfold createGame, insert_select_single. rewrite Hk. cbn [snd].
  by rewrite lookup_insert_eq.
Qed.

Lemma created_game_is_listed_witness :
  mkAvailableGame "g1" (Some "u1") 7 ∈
    games (getAvailableGames (λ _, 7) (snd (createGame "g1" "u1" ∅))).
Proof.
  apply (created_game_is_listed (λ _, 7) ∅ "g1" "u1"). apply lookup_empty.
Defined.

(** ** What the page shows *)

(** X17: with a loaded match and a player number, the move buttons are
    enabled exactly when the player's own choice is unset, so the text
    "Waiting for your move" is never shown; and when the page takes the
    opponent to be still choosing, the player's buttons are disabled and no
    opponent choice is shown. *)
Theorem own_turn_iff_no_choice (state : Game) (playerNumber : option Z) :
  truthy_number playerNumber = true →
  (isMyTurnToMove (Some state) playerNumber = true ↔
   getPlayerChoice (Some state) playerNumber = None) ∧
  your_choice_text (Some state) playerNumber ≠ "Waiting for your move" ∧
  (isOpponentWaiting (Some state) playerNumber = true →
   isMyTurnToMove (Some state) playerNumber = false ∧
   getOpponentChoice (Some state) playerNumber = None).
Proof.
  intros Hn.
  assert (Hturn : isMyTurnToMove (Some state) playerNumber = true ↔
                  getPlayerChoice (Some state) playerNumber = None).
  { unfold isMyTurnToMove, getPlayerChoice. rewrite Hn. cbn [negb].
    case_bool_decide; apply bool_decide_eq_true. }
  split_and!; [exact Hturn| |].
  - unfold your_choice_text.
    destruct (getPlayerChoice (Some state) playerNumber) as [c|] eqn:Hc.
    + by destruct c.
    + by rewrite (proj2 Hturn eq_refl).
  - unfold isOpponentWaiting, isMyTurnToMove, getOpponentChoice.
    rewrite Hn. cbn [negb].
    destruct (bool_decide (playerNumber = Some 1)); intros Hw;
      apply andb_prop in Hw as [Hw Hown];
      apply andb_prop in Hw as [_ Hopp];
      apply bool_decide_eq_true_1 in Hopp;
      apply negb_true_iff in Hown; by rewrite Hown.
Qed.

Lemma own_turn_iff_no_choice_witness :
  let state := mkGame "g1" (Some "u1") (Some "u2") (Some rock) None 0 0 None
                      playing in
  isMyTurnToMove (Some state) (Some 1) = false ∧
  your_choice_text (Some state) (Some 1) = "rock" ∧
  your_choice_text (Some state) (Some 2) ≠ "Waiting for your move".
Proof.
  intros state. split_and!; [reflexivity..|].
  apply (own_turn_iff_no_choice state (Some 2) eq_refl).
Defined.

(** X18: in a match with no pending choice, after a participant's move the
    stored match, as [getGameState] returns it, disables the mover's buttons
    and shows the mover's choice to the mover; to the other player it shows
    the same choice as the opponent's choice while that player's buttons
    are still enabled. *)
Theorem first_move_is_shown_to_opponent
    (db : gmap string Game) gameId playerId choice game :
  db !! gameId = Some game →
  bound_to game playerId →
  player1_choice game = None →
  player2_choice game = None →
  let mover := Some (if isPlayer1 game playerId then 1 else 2) in
  let other := Some (if isPlayer1 game playerId then 2 else 1) in
  ∃ state,
    getGameState gameId (snd (makeMove gameId playerId choice db)) =
      ReplyGame state ∧
    isMyTurnToMove (Some state) mover = false ∧
    getPlayerChoice (Some state) mover = Some choice ∧
    isMyTurnToMove (Some state) other = true ∧
    getOpponentChoice (Some state) other = Some choice ∧
    opponent_choice_text (Some state) other = choice_text choice.
Proof.
  intros Hk Hb Hc1 Hc2 mover other.
  rewrite (makeMove_bound _ _ _ _ _ Hk Hb). cbn [snd].
  unfold getGameState, select_single. rewrite lookup_insert_eq.
  eexists. split; [reflexivity|].
  unfold mover, other, makeMove_resolve, own_choice, player1CurrentChoice,
    player2CurrentChoice, opponent_choice_text.
  destruct (isPlayer1 game playerId); cbn [negb]; rewrite ?Hc1, ?Hc2;
    cbn; rewrite ?Hc1, ?Hc2; by split_and!.
Qed.

Lemma first_move_is_shown_to_opponent_witness :
  let game := mkGame "g1" (Some "u1") (Some "u2") None None 0 0 None playing in
  ∃ state,
    getGameState "g1" (snd (makeMove "g1" "u2" scissors {[ "g1" := game ]})) =
      ReplyGame state ∧
    isMyTurnToMove (Some state) (Some 1) = true ∧
    opponent_choice_text (Some state) (Some 1) = "scissors".
Proof.
  intros game.
  assert (Hk : ({[ "g1" := game ]} : gmap string Game) !! "g1" = Some game)
    by reflexivity.
  destruct (first_move_is_shown_to_opponent _ "g1" "u2" scissors game Hk
              (or_intror eq_refl) eq_refl eq_refl)
    as (state & Hread & _ & _ & Hturn & _ & Htext).
  exists state. split_and!; [exact Hread|exact Hturn|exact Htext].
Defined.

(** X19: when the opponent's stored choice is present, the move completes
    the round, and the stored match, as [getGameState] returns it, then
    shows no choice to either player and enables the buttons of both. *)
Theorem completed_round_reopens_both
    (db : gmap string Game) gameId playerId choice game opponent :
  db !! gameId = Some game →
  (player1_id game = Some playerId ∧ player2_choice game = Some opponent) ∨
  (player1_id game ≠ Some playerId ∧ player2_id game = Some playerId ∧
   player1_choice game = Some opponent) →
  ∃ state,
    snd (makeMove gameId playerId choice db) !! gameId = Some state ∧
    getGameState gameId (snd (makeMove gameId playerId choice db)) =
      ReplyGame state ∧
    player1_choice state = None ∧ player2_choice state = None ∧
    ∀ playerNumber, truthy_number playerNumber = true →
      isMyTurnToMove (Some state) playerNumber = true ∧
      getPlayerChoice (Some state) playerNumber = None ∧
      getOpponentChoice (Some state) playerNumber = None.
Proof.
  intros Hk Hside.
  assert (Hb : bound_to game playerId).
  { destruct Hside as [(? & _)|(_ & ? & _)]; [by left|by right]. }
  rewrite (makeMove_bound _ _ _ _ _ Hk Hb). cbn [snd].
  unfold getGameState, select_single. rewrite lookup_insert_eq.
  eexists. split; [reflexivity|]. split; [reflexivity|].
  set (state := apply_patch _ game).
  assert (player1_choice state = None ∧ player2_choice state = None)
    as [E1 E2].
  { unfold state, makeMove_resolve, player1CurrentChoice,
      player2CurrentChoice, isPlayer1.
    destruct Hside as [(H1 & Hopp)|(H1 & _ & Hopp)].
    - rewrite (bool_decide_eq_true_2 _ H1). cbn [negb]. rewrite Hopp.
      cbn [truthy_choice andb]. by repeat case_bool_decide.
    - rewrite (bool_decide_eq_false_2 _ H1). cbn [negb]. rewrite Hopp.
      cbn [truthy_choice andb]. by repeat case_bool_decide. }
  split_and!; [exact E1|exact E2|]. intros playerNumber Hn.
  unfold isMyTurnToMove, getPlayerChoice, getOpponentChoice.
  rewrite Hn, E1, E2. cbn [negb]. by case_bool_decide.
Qed.

Lemma completed_round_reopens_both_witness :
  let game := mkGame "g1" (Some "u1") (Some "u2") (Some rock) None 0 0 None
                     playing in
  let game' := mkGame "g1" (Some "u1") (Some "u2") None (Some rock) 0 0 None
                      playing in
  (∃ state,
     getGameState "g1" (snd (makeMove "g1" "u2" paper {[ "g1" := game ]})) =
       ReplyGame state ∧
     player1_choice state = None ∧ player2_choice state = None ∧
     isMyTurnToMove (Some state) (Some 1) = true ∧
     isMyTurnToMove (Some state) (Some 2) = true) ∧
  (∃ state,
     getGameState "g1" (snd (makeMove "g1" "u1" paper {[ "g1" := game' ]})) =
       ReplyGame state ∧
     player1_choice state = None ∧ player2_choice state = None ∧
     isMyTurnToMove (Some state) (Some 1) = true ∧
     isMyTurnToMove (Some state) (Some 2) = true).
Proof.
  intros game game'. split.
  - assert (Hk : ({[ "g1" := game ]} : gmap string Game) !! "g1" = Some game)
      by reflexivity.
    assert (Hside :
      (player1_id game = Some "u2" ∧ player2_choice game = Some rock) ∨
      (player1_id game ≠ Some "u2" ∧ player2_id game = Some "u2" ∧
       player1_choice game = Some rock)) by (right; by split_and!).
    destruct (completed_round_reopens_both _ "g1" "u2" paper game rock
                Hk Hside)
      as (state & _ & Hread & E1 & E2 & Hall).
    exists state. split_and!; [exact Hread|exact E1|exact E2| |].
    + apply (Hall (Some 1) eq_refl).
    + apply (Hall (Some 2) eq_refl).
  - assert (Hk : ({[ "g1" := game' ]} : gmap string Game) !! "g1" = Some game')
      by reflexivity.
    assert (Hside :
      (player1_id game' = Some "u1" ∧ player2_choice game' = Some rock) ∨
      (player1_id game' ≠ Some "u1" ∧ player2_id game' = Some "u1" ∧
       player1_choice game' = Some rock)) by (left; by split).
    destruct (completed_round_reopens_both _ "g1" "u1" paper game' rock
                Hk Hside)
      as (state & _ & Hread & E1 & E2 & Hall).
    exists state. split_and!; [exact Hread|exact E1|exact E2| |].
    + apply (Hall (Some 1) eq_refl).
    + apply (Hall (Some 2) eq_refl).
Defined.

(** ** Overlapping calls *)

Lemma makeMove_update_present (db : gmap string Game) gameId p game :
  db !! gameId = Some game →
  makeMove_update gameId p db =
    (ReplySuccess, <[gameId := apply_patch p game]> db).
Proof.
  intros Hk. unfold makeMove_update, update_eq.
  by rewrite (alter_present _ _ _ _ Hk).
Qed.

(** X20: in a match with two different participants and no pending choice,
    when the two players move and both fetches come before both updates,
    both calls succeed, both choices are stored and the round is not
    resolved: no score changes and no result is written, whichever update
    comes last. *)
Theorem overlapping_moves_leave_pair
    (db : gmap string Game) gameId user1 user2 choice1 choice2 game
    (a b : bool) :
  db !! gameId = Some game →
  player1_id game = Some user1 →
  player2_id game = Some user2 →
  user1 ≠ user2 →
  player1_choice game = None →
  player2_choice game = None →
  interleave [a; negb a; b; negb b]
    (Called (MakeMove gameId user1 choice1))
    (Called (MakeMove gameId user2 choice2)) db =
    (Returned ReplySuccess, Returned ReplySuccess,
     <[gameId :=
         mkGame (id game) (Some user1) (Some user2) (Some choice1)
                (Some choice2) (player1_score game) (player2_score game)
                None (status game)]> db).
Proof.
  intros Hk H1 H2 Hne Hc1 Hc2.
  assert (Hf1 : makeMove_fetch gameId user1 choice1 db =
                  Updates (assign_last_result None
                             (assign_player1_choice (Some choice1)
                                                    empty_patch))).
  { rewrite (makeMove_fetch_bound _ _ _ _ _ Hk (or_introl H1)).
    unfold isPlayer1. rewrite (bool_decide_eq_true_2 _ H1).
    unfold makeMove_resolve, player1CurrentChoice, player2CurrentChoice.
    cbn. by rewrite Hc2. }
  assert (Hf2 : makeMove_fetch gameId user2 choice2 db =
                  Updates (assign_last_result None
                             (assign_player2_choice (Some choice2)
                                                    empty_patch))).
  { rewrite (makeMove_fetch_bound _ _ _ _ _ Hk (or_intror H2)).
    unfold isPlayer1. rewrite bool_decide_eq_false_2 by congruence.
    unfold makeMove_resolve, player1CurrentChoice, player2CurrentChoice.
    cbn. by rewrite Hc1. }
  destruct a, b; cbn [interleave negb];
    repeat (cbn [task_step call_fetch call_update];
            first [ rewrite Hf1 | rewrite Hf2
                  | rewrite (makeMove_update_present _ _ _ _ Hk)
                  | rewrite (makeMove_update_present _ _ _ _
                               (lookup_insert_eq _ _ _)) ]);
    cbn [task_step]; rewrite insert_insert_eq;
    unfold apply_patch; cbn; by rewrite H1, H2.
Qed.

Lemma overlapping_moves_leave_pair_witness :
  let game := mkGame "g1" (Some "u1") (Some "u2") None None 0 0 None playing in
  interleave [false; true; true; false]
    (Called (MakeMove "g1" "u1" rock)) (Called (MakeMove "g1" "u2" paper))
    {[ "g1" := game ]} =
    (Returned ReplySuccess, Returned ReplySuccess,
     {[ "g1" := mkGame "g1" (Some "u1") (Some "u2") (Some rock) (Some paper)
                       0 0 None playing ]}).
Proof.
  intros game.
  assert (Hk : ({[ "g1" := game ]} : gmap string Game) !! "g1" = Some game)
    by reflexivity.
  assert (Hne : "u1" ≠ "u2") by discriminate.
  assert (Hrun := overlapping_moves_leave_pair _ "g1" "u1" "u2" rock paper
                    game false true Hk eq_refl eq_refl Hne eq_refl eq_refl).
  cbn [negb] in Hrun. rewrite Hrun.
  by rewrite insert_singleton_eq.
Defined.

(** X21: on a match whose second slot is falsy, when two callers bound to
    neither slot join and both fetches come before both updates, both are
    answered player number 2 and the slot holds the caller whose update
    came last; the other caller holds an answer that is no longer true of
    the table. *)
Theorem overlapping_joins_both_answered
    (db : gmap string Game) gameId userA userB game (a b : bool) :
  db !! gameId = Some game →
  truthy_string (player2_id game) = false →
  ¬ bound_to game userA →
  ¬ bound_to game userB →
  userA ≠ userB →
  ∃ db',
    interleave [a; negb a; b; negb b]
      (Called (JoinGame gameId userA)) (Called (JoinGame gameId userB)) db =
      (Returned (ReplyPlayer (id game) userA 2),
       Returned (ReplyPlayer (id game) userB 2), db') ∧
    ∃ game',
      db' !! gameId = Some game' ∧
      player2_id game' = Some (if b then userA else userB) ∧
      ¬ bound_to game' (if b then userB else userA) ∧
      ∀ choice,
        fst (makeMove gameId (if b then userB else userA) choice db') =
          ReplyError "Invalid player for this game".
Proof.
  intros Hk H2 HA HB Hne.
  rewrite (joinGame_overlap_both_join _ _ _ _ _ a b Hk H2 HA HB).
  eexists. split; [reflexivity|]. eexists.
  split; [apply lookup_insert_eq|]. split; [reflexivity|].
  assert (Hloser : ¬ bound_to
            (mkGame (id game) (player1_id game)
                    (Some (if b then userA else userB))
                    (player1_choice game) (player2_choice game)
                    (player1_score game) (player2_score game)
                    (last_result game) playing)
            (if b then userB else userA)).
  { intros [H|H]; cbn in H.
    - destruct b; [apply HB|apply HA]; by left.
    - destruct b; congruence. }
  split; [exact Hloser|]. intros choice.
  rewrite (makeMove_stranger _ _ _ _ _ (lookup_insert_eq _ _ _)); [done| |];
    intros ?; apply Hloser; [by left|by right].
Qed.

Lemma overlapping_joins_both_answered_witness :
  let game := mkGame "g1" (Some "u1") None None None 0 0 None waiting in
  ∃ db',
    interleave [false; true; false; true]
      (Called (JoinGame "g1" "u2")) (Called (JoinGame "g1" "u3"))
      {[ "g1" := game ]} =
      (Returned (ReplyPlayer "g1" "u2" 2),
       Returned (ReplyPlayer "g1" "u3" 2), db') ∧
    ∀ choice,
      fst (makeMove "g1" "u2" choice db') =
        ReplyError "Invalid player for this game".
Proof.
  intros game.
  assert (Hk : ({[ "g1" := game ]} : gmap string Game) !! "g1" = Some game)
    by reflexivity.
  assert (HA : ¬ bound_to game "u2") by by intros [?|?].
  assert (HB : ¬ bound_to game "u3") by by intros [?|?].
  assert (Hne : "u2" ≠ "u3") by discriminate.
  destruct (overlapping_joins_both_answered _ "g1" "u2" "u3" game false false
              Hk eq_refl HA HB Hne)
    as (db' & Hrun & _ & _ & _ & _ & Hmove).
  cbn [negb] in Hrun. exists db'. split; [exact Hrun|exact Hmove].
Defined.
